(** * Ecosystem scanning orchestration (src/lib/ecosystems.ts)

    A shallow embedding of the coordination layer of the CLI: ecosystem
    selection, the scan loop over paths, the submission loops to the
    test and monitor endpoints, and the formatter of the monitor report.

    JavaScript objects that the code mutates or passes by reference (scan
    results, the caller's results array, the options object) live in an
    explicit store; the remote service, the plugins and the progress
    indicator are collaborators whose calls are recorded in a trace. *)

From Stdlib Require Import Ascii ZArith Lia.
From stdpp Require Import base tactics option list strings functions.

Local Open Scope string_scope.
Local Open Scope Z_scope.
Local Open Scope list_scope.

(** ** JavaScript values *)

(** Truthiness of the JavaScript values the code tests with [if], [&&],
    [||] and [? :]: [undefined] (modelled as [None]), [false] and the
    empty string are falsy. *)
Class Truthy (A : Type) := truthy : A -> bool.

#[export] Instance bool_truthy : Truthy bool := fun b => b.
#[export] Instance string_truthy : Truthy string :=
  fun s => match s with EmptyString => false | String _ _ => true end.
#[export] Instance option_truthy {A} `{Truthy A} : Truthy (option A) :=
  fun o => match o with Some a => truthy a | None => false end.

(** [a || b] *)
Definition js_or {A} `{Truthy A} (a b : A) : A := if truthy a then a else b.

(** A value is set when JavaScript sees it as truthy. *)
Definition is_set {A} `{Truthy A} (a : A) : Prop := truthy a = true.

(** String concatenation with a value that may be [undefined]. *)
Definition js_concat (s : string) (v : option string) : string :=
  s +:+ default "undefined" v.

(** [Array.prototype.join] on an array of strings. *)
Fixpoint join (sep : string) (xs : list string) : string :=
  match xs with
  | [] => ""
  | [x] => x
  | x :: rest => x +:+ sep +:+ join sep rest
  end.

(** ** Data model *)

(** The line feed the source writes [\n]. *)
Definition LF : string := String "010"%char EmptyString.

Definition SEPARATOR : string :=
  LF +:+ "-------------------------------------------------------" +:+ LF.

(** References to objects of the store. *)
Abbreviation loc := nat (only parsing).

Inductive Target :=
  | GitTarget (remoteUrl branch : string)
  | ContainerTarget (image : string).

Record Identity := mkIdentity {
  id_type : string;
  targetFile : option string;
  args : option (list (string * string)) }.

(** [data] is opaque to this layer: its JSON text. *)
Record Facts := mkFacts {
  fact_type : string;
  fact_data : string }.

Record ScanResult := mkScanResult {
  identity : Identity;
  facts : list Facts;
  name : option string;
  policy : option string;
  target : option Target }.

Record Issue := mkIssue {
  pkgName : string;
  pkgVersion : option string;
  issueId : string;
  nearestFixedInVersion : option string }.

Record IssueData := mkIssueData {
  idata_id : string;
  severity : string;
  title : string }.

Record TestResult := mkTestResult {
  issues : list Issue;
  issuesData : list (string * IssueData);
  depGraphData : string }.

Record MonitorDependenciesResponse := mkResponse {
  r_ok : bool;
  r_org : string;
  r_id : string;
  r_isMonitored : bool;
  r_licensesPolicy : string;
  r_uri : string;
  r_trialStarted : bool;
  r_path : string;
  r_projectName : string }.

(** [EcosystemMonitorResult]: the response fields, with [path] and
    [scanResult] (a reference) written over them. *)
Record EcosystemMonitorResult := mkMonitorResult {
  m_response : MonitorDependenciesResponse;
  m_path : string;
  m_scanResult : loc }.

Record EcosystemMonitorError := mkMonitorError {
  e_error : string;
  e_path : string;
  e_scanResult : loc }.

(** The request object holds a reference to the scan result. *)
Record MonitorDependenciesRequest := mkRequest {
  q_scanResult : loc;
  q_projectName : option string;
  q_policy : option string;
  q_method : option string }.

Inductive Ecosystem := cpp | docker.

(** Modelled from the spec: [Options] is declared in [lib/types], which
    is not among the sources. These are the options the spec lists for
    this component: [source], [container], [isDockerUser], [json],
    ['project-name'] (spelled [project_name]) and [path]; each but [path]
    may be absent. *)
Record Options := mkOptions {
  o_path : string;
  o_source : option bool;
  o_container : option bool;
  o_isDockerUser : option bool;
  o_json : option bool;
  project_name : option string }.

Definition set_path (p : string) (o : Options) : Options :=
  mkOptions p (o_source o) (o_container o) (o_isDockerUser o) (o_json o)
            (project_name o).

(** Modelled from the spec: what the imported modules provide, none of
    them among the sources: the base URL [config.API], the globally
    configured project name [config.PROJECT_NAME], the token [snyk.api]
    of the authorization header and the CI detection [isCI()]. *)
Record Config := mkConfig {
  API : string;
  PROJECT_NAME : option string;
  snyk_api : string;
  isCI : bool }.

(** A JavaScript error value: [code] is [None] when the property is
    absent or is not a number (as for network failures), in which case
    both comparisons of the catch clauses are false. *)
Record Exn := mkExn {
  exn_code : option Z;
  exn_message : string }.

(** [new Error(message)] *)
Definition new_Error (message : string) : Exn := mkExn None message.

(** ** Ecosystem selection *)

Definition getEcosystem (options : Options) : option Ecosystem :=
  if truthy (o_source options) then Some cpp
  else if truthy (o_container options) && negb (truthy (o_isDockerUser options))
  then Some docker
  else None.

(** ** Monitor requests *)

Definition generateMonitorDependenciesRequest
    (config : Config) (scanResult : loc) (options : Options)
    : MonitorDependenciesRequest :=
  {| q_scanResult := scanResult;
     q_method := Some "cli";
     q_policy := None;
     q_projectName :=
       js_or (js_or (project_name options) (PROJECT_NAME config)) None |}.

(** ** Objects used as maps

    The own enumerable string-keyed properties of an ordinary object, in
    creation order. *)
Record JsObject (V : Type) := mkObj { own : list (string * V) }.
Arguments mkObj {V} _.
Arguments own {V} _.

Definition empty_obj {V} : JsObject V := mkObj [].

Fixpoint assign {V} (k : string) (v : V) (ps : list (string * V))
    : list (string * V) :=
  match ps with
  | [] => [(k, v)]
  | (k', v') :: rest =>
      if decide (k' = k) then (k, v) :: rest else (k', v') :: assign k v rest
  end.

(** [o[k] = v] where [v] is an object (here always an array): an
    existing property keeps its place, a new one goes last, and the key
    [__proto__] reaches the inherited setter, which replaces the
    prototype and creates no own property. *)
Definition obj_set {V} (o : JsObject V) (k : string) (v : V) : JsObject V :=
  if decide (k = "__proto__") then o else mkObj (assign k v (own o)).

Definition digit_of (a : Ascii.ascii) : option N :=
  let n := Ascii.N_of_ascii a in
  if ((48 <=? n) && (n <=? 57))%N then Some (n - 48)%N else None.

Fixpoint parse_digits (acc : N) (s : string) : option N :=
  match s with
  | EmptyString => Some acc
  | String a rest =>
      match digit_of a with
      | Some d => parse_digits (acc * 10 + d)%N rest
      | None => None
      end
  end.

(** A key is an array index when it is the canonical decimal text of an
    integer below 2^32 - 1. *)
Definition array_index (k : string) : option N :=
  match k with
  | EmptyString => None
  | String a rest =>
      if decide (a = "0"%char /\ rest <> EmptyString) then None
      else
        match parse_digits 0 k with
        | Some n => if (n <? 2 ^ 32 - 1)%N then Some n else None
        | None => None
        end
  end.

Fixpoint insert_by_index {V} (n : N) (e : string * V)
    (l : list (N * (string * V))) : list (N * (string * V)) :=
  match l with
  | [] => [(n, e)]
  | (m, e') :: rest =>
      if (n <=? m)%N then (n, e) :: l else (m, e') :: insert_by_index n e rest
  end.

Fixpoint index_props {V} (ps : list (string * V)) : list (N * (string * V)) :=
  match ps with
  | [] => []
  | e :: rest =>
      match array_index e.1 with
      | Some n => insert_by_index n e (index_props rest)
      | None => index_props rest
      end
  end.

Fixpoint named_props {V} (ps : list (string * V)) : list (string * V) :=
  match ps with
  | [] => []
  | e :: rest =>
      match array_index e.1 with
      | Some _ => named_props rest
      | None => e :: named_props rest
      end
  end.

(** [Object.entries(o)]: array-index keys in ascending order, then the
    other keys in creation order. *)
Definition Object_entries {V} (o : JsObject V) : list (string * V) :=
  map snd (index_props (own o)) ++ named_props (own o).

Definition Object_keys {V} (o : JsObject V) : list string :=
  map fst (Object_entries o).

Definition Object_values {V} (o : JsObject V) : list V :=
  map snd (Object_entries o).

(** ** Computations: state, exceptions, loops *)

Inductive Res (A : Type) :=
  | Ok (a : A)
  | Throw (e : Exn).
Arguments Ok {A} _.
Arguments Throw {A} _.

Definition M (S A : Type) : Type := S -> Res A * S.

Definition ret {S A} (a : A) : M S A := fun s => (Ok a, s).

Definition bind {S A B} (m : M S A) (k : A -> M S B) : M S B :=
  fun s =>
    match m s with
    | (Ok a, s') => k a s'
    | (Throw e, s') => (Throw e, s')
    end.

Definition throw {S A} (e : Exn) : M S A := fun s => (Throw e, s).

(** [try { m } catch (error) { h error }] *)
Definition try_catch {S A} (m : M S A) (h : Exn -> M S A) : M S A :=
  fun s =>
    match m s with
    | (Ok a, s') => (Ok a, s')
    | (Throw e, s') => h e s'
    end.

Definition gets {S A} (f : S -> A) : M S A := fun s => (Ok (f s), s).

Definition modify {S} (f : S -> S) : M S unit := fun s => (Ok tt, f s).

Declare Scope js_scope.
Delimit Scope js_scope with js.
Notation "x <- m ;; k" := (bind m (fun x => k))
  (at level 100, m at next level, right associativity) : js_scope.
Notation "m ;;; k" := (bind m (fun _ => k))
  (at level 100, right associativity) : js_scope.

(** [for (const x of xs) { body x }] *)
Fixpoint for_of {S A} (xs : list A) (body : A -> M S unit) : M S unit :=
  match xs with
  | [] => ret tt
  | x :: rest => bind (body x) (fun _ => for_of rest body)
  end.

(** A function-local frame [L] next to the shared state [G]. *)
Definition global {L G A} (m : M G A) : M (L * G) A :=
  fun s => match m s.2 with (r, g) => (r, (s.1, g)) end.

Definition local {L G A} (m : M L A) : M (L * G) A :=
  fun s => match m s.1 with (r, l) => (r, (l, s.2)) end.

Definition run_frame {L G A} (init : L) (m : M (L * G) A) : M G A :=
  fun g => match m (init, g) with (r, s) => (r, s.2) end.

(** ** Requests and collaborators *)

(** The body of a request as it goes on the wire: the scan result is
    read through its reference when the request is sent. *)
Inductive Body :=
  | ScanResultBody (scanResult : ScanResult)
  | MonitorBody (scanResult : ScanResult)
                (projectName policy method : option string).

Record Payload := mkPayload {
  p_method : string;
  p_url : string;
  p_json : bool;
  p_x_is_ci : bool;
  p_authorization : string;
  p_body : Body }.

Record PluginResponse := mkPluginResponse { scanResults : list loc }.

Abbreviation Heap := (loc -> ScanResult) (only parsing).

(** Calls to the collaborators, in the order the code makes them. A
    request also records the path and the scan result it was made for. *)
Inductive Event :=
  | EvSpinner (label : string)
  | EvClearAll
  | EvScan (ecosystem : Ecosystem) (options : Options)
           (result : Res PluginResponse)
  | EvTest (path : string) (scanResult : loc) (payload : Payload)
           (result : Res TestResult)
  | EvMonitor (path : string) (scanResult : loc) (payload : Payload)
              (result : Res MonitorDependenciesResponse).

(** [error.code >= 400 && error.code < 500] *)
Definition client_error (error : Exn) : bool :=
  match exn_code error with
  | Some code => (400 <=? code) && (code <? 500)
  | None => false
  end.

Definition excluded_fact : string := "imageOsReleasePrettyName".

Definition set_facts (fs : list Facts) (sr : ScanResult) : ScanResult :=
  mkScanResult (identity sr) fs (name sr) (policy sr) (target sr).

(** [facts.filter((fact) => fact.type !== 'imageOsReleasePrettyName')] *)
Definition filter_facts (fs : list Facts) : list Facts :=
  filter (fun fact => fact_type fact <> excluded_fact) fs.

(** Modelled from the spec: [TestCommandResult] is declared in
    [cli/commands/types], which is not among the sources; a result is
    either the JSON text alone or the rendered text with the JSON
    text. *)
Inductive TestCommandResult :=
  | JsonTestCommandResult (stdout : string)
  | HumanReadableTestCommandResult (stdout jsonResult : string).

Record TestFrame := mkTestFrame {
  t_results : list TestResult;
  t_errors : list string }.

Record MonitorFrame := mkMonitorFrame {
  m_results : list EcosystemMonitorResult;
  m_errors : list EcosystemMonitorError }.

Record ScanFrame := mkScanFrame {
  scanResultsByPath : JsObject (list loc);
  f_options : Options }.

Section Orchestration.

Variable config : Config.

(** The world outside the process: the remote service, the file system
    and the plugins' own state. *)
Variable World : Type.

(** [getPlugin(ecosystem).scan(options)]: the plugin creates the scan
    results it returns, so it acts on the store too. *)
Variable plugin_scan :
  Ecosystem -> Options -> World -> Heap -> Res PluginResponse * (World * Heap).

(** [getPlugin(ecosystem).display(scanResults, testResults, errors, options)] *)
Variable plugin_display :
  Ecosystem -> list loc -> list TestResult -> list string -> Options ->
  World -> Heap -> Res string * World.

(** [makeRequest<TestResult>] and
    [makeRequest<MonitorDependenciesResponse>]: the promise resolves
    with a response or rejects with an error. *)
Variable makeRequest_TestResult : Payload -> World -> Res TestResult * World.
Variable makeRequest_MonitorDependenciesResponse :
  Payload -> World -> Res MonitorDependenciesResponse * World.

(** [JSON.stringify(testResults, null, 2)] *)
Variable JSON_stringify : list TestResult -> string.

Record State := mkState {
  world : World;
  heap : Heap;
  trace : list Event }.

Definition log (e : Event) : M State unit :=
  modify (fun s => mkState (world s) (heap s) (trace s ++ [e])).

Definition spinner (label : string) : M State unit := log (EvSpinner label).

Definition spinner_clearAll : M State unit := log EvClearAll.

Definition deref (l : loc) : M State ScanResult := gets (fun s => heap s l).

Definition store (l : loc) (v : ScanResult) : M State unit :=
  modify (fun s => mkState (world s) (<[l := v]> (heap s)) (trace s)).

Definition scan (ecosystem : Ecosystem) (options : Options)
    : M State PluginResponse :=
  fun s =>
    match plugin_scan ecosystem options (world s) (heap s) with
    | (r, (w, h)) => (r, mkState w h (trace s ++ [EvScan ecosystem options r]))
    end.

Definition display (ecosystem : Ecosystem) (scans : list loc)
    (testResults : list TestResult) (errors : list string)
    (options : Options) : M State string :=
  fun s =>
    match plugin_display ecosystem scans testResults errors options
                         (world s) (heap s) with
    | (r, w) => (r, mkState w (heap s) (trace s))
    end.

Definition request_test (path : string) (scanResult : loc)
    (payload : Payload) : M State TestResult :=
  fun s =>
    match makeRequest_TestResult payload (world s) with
    | (r, w) =>
        (r, mkState w (heap s) (trace s ++ [EvTest path scanResult payload r]))
    end.

Definition request_monitor (path : string) (scanResult : loc)
    (payload : Payload) : M State MonitorDependenciesResponse :=
  fun s =>
    match makeRequest_MonitorDependenciesResponse payload (world s) with
    | (r, w) =>
        (r, mkState w (heap s)
              (trace s ++ [EvMonitor path scanResult payload r]))
    end.

(** *** testDependencies *)

Definition test_payload (scanResult : ScanResult) : Payload :=
  {| p_method := "POST";
     p_url := API config +:+ "/test-dependencies";
     p_json := true;
     p_x_is_ci := isCI config;
     p_authorization := "token " +:+ snyk_api config;
     p_body := ScanResultBody scanResult |}.

Definition push_test_result (response : TestResult) : M TestFrame unit :=
  modify (fun f => mkTestFrame (t_results f ++ [response]) (t_errors f)).

Definition push_test_error (error : string) : M TestFrame unit :=
  modify (fun f => mkTestFrame (t_results f) (t_errors f ++ [error])).

(** The body of the inner loop, for one scan result of [path]. *)
Definition test_step (path : string) (scanResult : loc)
    : M (TestFrame * State) unit :=
  (sr <- global (deref scanResult) ;;
   let payload := test_payload sr in
   try_catch
     (response <- global (request_test path scanResult payload) ;;
      local (push_test_result response))
     (fun error =>
        if client_error error
        then throw (new_Error (exn_message error))
        else local (push_test_error
                      ("Could not test dependencies in " +:+ path))))%js.

(** The function body, run on its own frame ([results], [errors]). *)
Definition testDependencies_body (scans : JsObject (list loc))
    : M (TestFrame * State) (list TestResult * list string) :=
  (for_of (Object_entries scans)
     (fun entry =>
        global (spinner ("Testing dependencies in " +:+ entry.1)) ;;;
        for_of entry.2 (test_step entry.1)) ;;;
   global spinner_clearAll ;;;
   f <- gets fst ;;
   ret (t_results f, t_errors f))%js.

Definition testDependencies (scans : JsObject (list loc))
    : M State (list TestResult * list string) :=
  run_frame (mkTestFrame [] []) (testDependencies_body scans).

(** *** monitorDependencies *)

Definition monitor_payload (body : Body) : Payload :=
  {| p_method := "PUT";
     p_url := API config +:+ "/monitor-dependencies";
     p_json := true;
     p_x_is_ci := isCI config;
     p_authorization := "token " +:+ snyk_api config;
     p_body := body |}.

Definition serialize (h : Heap) (q : MonitorDependenciesRequest) : Body :=
  MonitorBody (h (q_scanResult q)) (q_projectName q) (q_policy q) (q_method q).

Definition push_monitor_result (r : EcosystemMonitorResult)
    : M MonitorFrame unit :=
  modify (fun f => mkMonitorFrame (m_results f ++ [r]) (m_errors f)).

Definition push_monitor_error (e : EcosystemMonitorError)
    : M MonitorFrame unit :=
  modify (fun f => mkMonitorFrame (m_results f) (m_errors f ++ [e])).

Definition monitor_step (options : Options) (path : string)
    (scanResult : loc) : M (MonitorFrame * State) unit :=
  (let monitorDependenciesRequest :=
     generateMonitorDependenciesRequest config scanResult options in
   sr <- global (deref (q_scanResult monitorDependenciesRequest)) ;;
   global (store (q_scanResult monitorDependenciesRequest)
                 (set_facts (filter_facts (facts sr)) sr)) ;;;
   body <- global (gets (fun s => serialize (heap s) monitorDependenciesRequest)) ;;
   let payload := monitor_payload body in
   try_catch
     (response <- global (request_monitor path scanResult payload) ;;
      local (push_monitor_result (mkMonitorResult response path scanResult)))
     (fun error =>
        if client_error error
        then throw (new_Error (exn_message error))
        else local (push_monitor_error
                      (mkMonitorError
                         ("Could not monitor dependencies in " +:+ path)
                         path scanResult))))%js.

Definition monitorDependencies_body (scans : JsObject (list loc))
    (options : Options)
    : M (MonitorFrame * State)
        (list EcosystemMonitorResult * list EcosystemMonitorError) :=
  (for_of (Object_entries scans)
     (fun entry =>
        global (spinner ("Monitoring dependencies in " +:+ entry.1)) ;;;
        for_of entry.2 (monitor_step options entry.1)) ;;;
   global spinner_clearAll ;;;
   f <- gets fst ;;
   ret (m_results f, m_errors f))%js.

Definition monitorDependencies (scans : JsObject (list loc))
    (options : Options)
    : M State (list EcosystemMonitorResult * list EcosystemMonitorError) :=
  run_frame (mkMonitorFrame [] []) (monitorDependencies_body scans options).

(** *** The scan loops of testEcosystem and monitorEcosystem *)

Definition scan_step (ecosystem : Ecosystem) (path : string)
    : M (ScanFrame * State) unit :=
  (local (modify (fun f =>
      mkScanFrame (scanResultsByPath f) (set_path path (f_options f)))) ;;;
   options <- gets (fun s => f_options s.1) ;;
   pluginResponse <- global (scan ecosystem options) ;;
   local (modify (fun f =>
      mkScanFrame
        (obj_set (scanResultsByPath f) path (scanResults pluginResponse))
        (f_options f))))%js.

(** Lines 149-154: the loop of [testEcosystem]. *)
Definition testEcosystem_scan (ecosystem : Ecosystem) (paths : list string)
    : M (ScanFrame * State) unit :=
  for_of paths (scan_step ecosystem).

(** Lines 216-222: the loop of [monitorEcosystem]. *)
Definition monitorEcosystem_scan (ecosystem : Ecosystem)
    (paths : list string) : M (ScanFrame * State) unit :=
  for_of paths
    (fun path =>
       global (spinner ("Analyzing dependencies in " +:+ path)) ;;;
       scan_step ecosystem path)%js.

Definition testEcosystem (ecosystem : Ecosystem) (paths : list string)
    (options : Options) : M State TestCommandResult :=
  run_frame (mkScanFrame empty_obj options)
    (testEcosystem_scan ecosystem paths ;;;
     byPath <- gets (fun s => scanResultsByPath s.1) ;;
     options' <- gets (fun s => f_options s.1) ;;
     r <- global (testDependencies byPath) ;;
     let stringifiedData := JSON_stringify r.1 in
     if truthy (o_json options')
     then ret (JsonTestCommandResult stringifiedData)
     else
       let scans := concat (Object_values byPath) in
       readableResult <- global (display ecosystem scans r.1 r.2 options') ;;
       ret (HumanReadableTestCommandResult readableResult stringifiedData))%js.

Definition monitorEcosystem (ecosystem : Ecosystem) (paths : list string)
    (options : Options)
    : M State (list EcosystemMonitorResult * list EcosystemMonitorError) :=
  run_frame (mkScanFrame empty_obj options)
    (monitorEcosystem_scan ecosystem paths ;;;
     byPath <- gets (fun s => scanResultsByPath s.1) ;;
     options' <- gets (fun s => f_options s.1) ;;
     global (monitorDependencies byPath options'))%js.

End Orchestration.

Arguments mkState {World} _ _ _.
Arguments world {World} _.
Arguments heap {World} _.
Arguments trace {World} _.
Arguments log {World} _ _.
Arguments spinner {World} _ _.
Arguments spinner_clearAll {World} _.
Arguments deref {World} _ _.
Arguments store {World} _ _ _.


(** ** The formatter of the monitor report *)

(** Modelled from the spec: the error of a failure entry, declared in
    [lib/errors], which is not among the sources. The formatter reads
    its user-facing message if present, else its raw message. *)
Record ErrorData := mkErrorData {
  userMessage : option string;
  message : option string }.

(** Modelled from the spec: [GoodResult] and [BadResult] are declared
    in [cli/commands/monitor/types], which is not among the sources. A
    success entry holds the report text, the path and the project id, a
    failure entry the error and the path; [ok] tells them apart. *)
Inductive Entry :=
  | GoodResult (data path : string) (projectName : option string)
  | BadResult (data : option ErrorData) (path : string).

Definition ok (res : Entry) : bool :=
  match res with
  | GoodResult _ _ _ => true
  | BadResult _ _ => false
  end.

Section Formatter.

(** What [getExtraProjectCount] looks at: the files under the path. *)
Variable World : Type.

(** [getExtraProjectCount(root, options, {} as InspectResult)],
    imported: the promise resolves with a count or with [undefined], or
    it rejects. *)
Variable getExtraProjectCount :
  string -> Options -> World -> Res (option nat) * World.

(** [formatMonitorOutput(packageManager, res, options, projectName,
    foundProjectCount)], imported: it returns the text of a success or
    throws. *)
Variable formatMonitorOutput :
  string -> EcosystemMonitorResult -> Options -> string -> option nat ->
  Res string.

(** [new MonitorError(code, payload)], from the errors module. *)
Variable MonitorError : Z -> EcosystemMonitorError -> ErrorData.

(** [chalk.bold.red] and [chalk.bold.white] *)
Variable bold_red bold_white : string -> string.

(** The callback of [results.map]. *)
Definition render (res : Entry) : string :=
  match res with
  | GoodResult data _ _ => data
  | BadResult data path =>
      let errorMessage : option string :=
        match data with
        | Some d =>
            if truthy (userMessage d)
            then Some (bold_red (default "" (userMessage d)))
            else message d
        | None => Some "Unknown error occurred."
        end in
      js_concat
        (bold_white (LF +:+ "Monitoring " +:+ path +:+ "..." +:+ LF +:+ LF))
        errorMessage
  end.

(** The initialiser of [monOutput]: the last argument is awaited, then
    [formatMonitorOutput] is called; a failure of either leaves the
    function, which has no [try]. *)
Definition monOutput (h : Heap) (options : Options)
    (monitorResult : EcosystemMonitorResult) : M World string :=
  (foundProjectCount <-
     getExtraProjectCount (m_path monitorResult) options ;;
   fun w =>
     (formatMonitorOutput
        (id_type (identity (h (m_scanResult monitorResult))))
        monitorResult options
        (r_projectName (m_response monitorResult))
        foundProjectCount, w))%js.

Definition success_entry (data : string)
    (monitorResult : EcosystemMonitorResult) : Entry :=
  GoodResult data (m_path monitorResult)
             (Some (r_id (m_response monitorResult))).

Definition failure_entry (monitorError : EcosystemMonitorError) : Entry :=
  BadResult (Some (MonitorError 500 monitorError)) (e_path monitorError).

(** [results.push(entry)] *)
Definition push (entry : Entry) : M (list Entry) unit :=
  modify (fun results => (results ++ [entry])%list).

Definition report (results : list Entry) : string :=
  join (LF +:+ SEPARATOR) (map render results).

(** The state is the caller's [results] array, next to the world. *)
Definition getFormattedMonitorOutput (h : Heap)
    (monitorResults : list EcosystemMonitorResult)
    (errors : list EcosystemMonitorError) (options : Options)
    : M (list Entry * World) string :=
  (for_of monitorResults
     (fun monitorResult =>
        data <- global (monOutput h options monitorResult) ;;
        local (push (success_entry data monitorResult))) ;;;
   for_of errors
     (fun monitorError => local (push (failure_entry monitorError))) ;;;
   results <- gets fst ;;
   let outputString := report results in
   if forallb ok results
   then ret outputString
   else throw (new_Error outputString))%js.

(** What the first loop obtains: the texts of the monitor results for
    which both calls returned, up to the first failure, the failure if
    there is one, and the world after the last call. *)
Fixpoint texts (h : Heap) (options : Options)
    (monitorResults : list EcosystemMonitorResult) (w : World)
    : list string * option Exn * World :=
  match monitorResults with
  | [] => ([], None, w)
  | monitorResult :: rest =>
      match monOutput h options monitorResult w with
      | (Ok data, w') =>
          match texts h options rest w' with
          | (datas, failure, w'') => (data :: datas, failure, w'')
          end
      | (Throw e, w') => ([], Some e, w')
      end
  end.

End Formatter.

Arguments monOutput {World} _ _ _ _ _ _.
Arguments getFormattedMonitorOutput {World} _ _ _ _ _ _ _ _ _ _.
Arguments texts {World} _ _ _ _ _ _.

(** ** Observations on a run *)

(** The loop nest of a submission function visits, for each entry of
    the scans object, the path and then each of its scan results. *)
Inductive Item :=
  | Enter (path : string)
  | Submit (path : string) (scanResult : loc).

Fixpoint schedule (entries : list (string * list loc)) : list Item :=
  match entries with
  | [] => []
  | entry :: rest =>
      Enter entry.1 :: map (Submit entry.1) entry.2 ++ schedule rest
  end.

(** One turn of the loop nest: the progress indicator on entering a
    path, the body of the inner loop on a scan result. *)
Definition run_item {World L} (prefix : string)
    (step : string -> loc -> M (L * State World) unit) (it : Item)
    : M (L * State World) unit :=
  match it with
  | Enter p => global (spinner (prefix +:+ p))
  | Submit p l => step p l
  end.

Definition pairs_in (items : list Item) : list (string * loc) :=
  omap (fun it => match it with
                  | Enter _ => None
                  | Submit p l => Some (p, l)
                  end) items.

(** The (path, scan result) pairs in the order the loops submit them. *)
Fixpoint pairs_of (entries : list (string * list loc)) : list (string * loc) :=
  match entries with
  | [] => []
  | entry :: rest => map (pair entry.1) entry.2 ++ pairs_of rest
  end.

Definition submissions (scans : JsObject (list loc)) : list (string * loc) :=
  pairs_of (Object_entries scans).

(** A remote call as the trace records it. *)
Record Call (R : Type) := mkCall {
  c_path : string;
  c_scanResult : loc;
  c_payload : Payload;
  c_result : Res R }.
Arguments mkCall {R} _ _ _ _.
Arguments c_path {R} _.
Arguments c_scanResult {R} _.
Arguments c_payload {R} _.
Arguments c_result {R} _.

Definition c_target {R} (c : Call R) : string * loc :=
  (c_path c, c_scanResult c).

Definition test_call_of (ev : Event) : option (Call TestResult) :=
  match ev with
  | EvTest p l payload r => Some (mkCall p l payload r)
  | _ => None
  end.

Definition monitor_call_of (ev : Event)
    : option (Call MonitorDependenciesResponse) :=
  match ev with
  | EvMonitor p l payload r => Some (mkCall p l payload r)
  | _ => None
  end.

Definition test_calls (tr : list Event) : list (Call TestResult) :=
  omap test_call_of tr.

Definition monitor_calls (tr : list Event)
    : list (Call MonitorDependenciesResponse) :=
  omap monitor_call_of tr.

Definition scan_calls (tr : list Event)
    : list (Ecosystem * Options * Res PluginResponse) :=
  omap (fun e => match e with
                 | EvScan eco o r => Some (eco, o, r)
                 | _ => None
                 end) tr.

(** The call was rejected with a code in [400,500). *)
Definition fatal {R} (c : Call R) : bool :=
  match c_result c with
  | Throw error => client_error error
  | Ok _ => false
  end.

(** The call was rejected with any other error. *)
Definition soft {R} (c : Call R) : bool :=
  match c_result c with
  | Throw error => negb (client_error error)
  | Ok _ => false
  end.

Definition response {R} (c : Call R) : option R :=
  match c_result c with
  | Ok r => Some r
  | Throw _ => None
  end.

Definition test_error (c : Call TestResult) : option string :=
  if soft c then Some ("Could not test dependencies in " +:+ c_path c)
  else None.

Definition monitor_result (c : Call MonitorDependenciesResponse)
    : option EcosystemMonitorResult :=
  match c_result c with
  | Ok r => Some (mkMonitorResult r (c_path c) (c_scanResult c))
  | Throw _ => None
  end.

Definition monitor_error (c : Call MonitorDependenciesResponse)
    : option EcosystemMonitorError :=
  if soft c
  then Some (mkMonitorError ("Could not monitor dependencies in " +:+ c_path c)
                            (c_path c) (c_scanResult c))
  else None.

(** Modelled from the spec: the progress indicator of [lib/spinner],
    which is not among the sources. It is process-wide state, started
    once per label and stopped for all labels at once by [clearAll]. *)
Fixpoint spinning (active : list string) (tr : list Event) : list string :=
  match tr with
  | [] => active
  | EvSpinner label :: rest => spinning (active ++ [label]) rest
  | EvClearAll :: rest => spinning [] rest
  | _ :: rest => spinning active rest
  end.

(** The events a run added to the trace, from the state it started in
    to the state it ended in. *)
Definition events_since {World} (st st' : State World) : list Event :=
  drop (length (trace st)) (trace st').

(** A scan result after the fact filter of the monitor loop. *)
Definition filtered (sr : ScanResult) : ScanResult :=
  set_facts (filter_facts (facts sr)) sr.

(** The store after the monitor loop went through the scan results
    [ls]. *)
Definition filtered_at (ls : list loc) (h : Heap) : Heap :=
  fun l => if decide (l ∈ ls) then filtered (h l) else h l.

(** The body of the monitor request for the scan result [sr], held at
    [l]. *)
Definition monitor_body (config : Config) (options : Options) (l : loc)
    (sr : ScanResult) : Body :=
  let request := generateMonitorDependenciesRequest config l options in
  MonitorBody (filtered sr) (q_projectName request) (q_policy request)
              (q_method request).

(** The plugin returned scan results. *)
Definition yielded (call : Ecosystem * Options * Res PluginResponse) : Prop :=
  exists pluginResponse, call.2 = Ok pluginResponse.

(** Whether the body returned or threw, without the value returned. *)
Definition outcome {A} (r : Res A) : Res unit :=
  match r with
  | Ok _ => Ok tt
  | Throw e => Throw e
  end.

(** A run that returned: every pair was submitted in order, no call met
    a client error, and the last thing done was to clear the progress
    indicator. *)
Definition completed {R} (subs : list (string * loc)) (evs : list Event)
    (calls : list (Call R)) : Prop :=
  map c_target calls = subs /\
  Forall (fun c => fatal c = false) calls /\
  exists evs0, evs = evs0 ++ [EvClearAll] /\ EvClearAll ∉ evs0.

(** A run that threw [e]: the last call met a client error [err], none
    before it did, the pairs after it were not submitted, and the
    progress indicator, started for the path of that call, was not
    cleared. *)
Definition aborted {R} (prefix : string) (subs : list (string * loc))
    (evs : list Event) (calls : list (Call R)) (e : Exn) : Prop :=
  exists calls0 c err post,
    calls = calls0 ++ [c] /\
    subs = map c_target calls0 ++ (c_target c :: post) /\
    Forall (fun c => fatal c = false) calls0 /\
    c_result c = Throw err /\ client_error err = true /\
    e = new_Error (exn_message err) /\
    (EvClearAll ∉ evs) /\
    EvSpinner (prefix +:+ c_path c) ∈ evs.

(** The number of times [spinner.clearAll] was called. *)
Definition cleared (tr : list Event) : nat :=
  length (omap (fun ev => match ev with
                          | EvClearAll => Some tt
                          | _ => None
                          end) tr).

(** ** A scripted world

    The collaborators answer from queues of prepared replies; a call
    that finds its queue empty fails like a dropped connection. *)
Module Script.

Record World := mkWorld {
  scan_replies : list (Res PluginResponse);
  test_replies : list (Res TestResult);
  monitor_replies : list (Res MonitorDependenciesResponse) }.

Definition dropped : Exn := mkExn None "socket hang up".

Definition plugin_scan (_ : Ecosystem) (_ : Options) (w : World) (h : Heap)
    : Res PluginResponse * (World * Heap) :=
  match scan_replies w with
  | [] => (Throw dropped, (w, h))
  | r :: rest => (r, (mkWorld rest (test_replies w) (monitor_replies w), h))
  end.

Definition makeRequest_TestResult (_ : Payload) (w : World)
    : Res TestResult * World :=
  match test_replies w with
  | [] => (Throw dropped, w)
  | r :: rest => (r, mkWorld (scan_replies w) rest (monitor_replies w))
  end.

Definition makeRequest_MonitorDependenciesResponse (_ : Payload) (w : World)
    : Res MonitorDependenciesResponse * World :=
  match monitor_replies w with
  | [] => (Throw dropped, w)
  | r :: rest => (r, mkWorld (scan_replies w) (test_replies w) rest)
  end.

Definition config : Config :=
  mkConfig "https://snyk.io/api/v1" None "00000000" false.

Definition options : Options := mkOptions "" None (Some true) None None None.

Definition os_release : Facts := mkFacts excluded_fact "Alpine Linux v3.12".
Definition dep_graph : Facts := mkFacts "depGraph" "{}".
Definition image_id : Facts := mkFacts "imageId" "sha256:0a1b".

Definition image (facts : list Facts) : ScanResult :=
  mkScanResult (mkIdentity "apk" None None) facts None None
               (Some (ContainerTarget "alpine")).

(** Two scan results in the store. *)
Definition store : Heap :=
  fun l =>
    match l with
    | O => image [os_release; dep_graph]
    | S O => image [dep_graph; os_release; image_id]
    | _ => image []
    end.

Definition clean : TestResult := mkTestResult [] [] "{}".

Definition monitored (id : string) : MonitorDependenciesResponse :=
  mkResponse true "org" id true "{}" "https://snyk.io/org/p" false "" "alpine".

Definition forbidden : Exn := mkExn (Some 403) "Forbidden".
Definition unavailable : Exn := mkExn (Some 503) "Service Unavailable".

Definition start (w : World) : State World := mkState w store [].

(** The scans object [{ './a': [#0], './b': [#1] }]. *)
Definition two_paths : JsObject (list loc) :=
  mkObj [("./a", [0%nat]); ("./b", [1%nat])].


(** The second test request is refused. *)
Definition test_refused : World := mkWorld [] [Ok clean; Throw forbidden] [].

(** The first test request meets a server error. *)
Definition test_unavailable : World :=
  mkWorld [] [Throw unavailable; Ok clean] [].

(** The second monitor request meets a server error. *)
Definition monitor_unavailable : World :=
  mkWorld [] [] [Ok (monitored "p0"); Throw unavailable].


(** Every scan yields one scan result. *)
Definition scans_fine : World :=
  mkWorld [Ok (mkPluginResponse [0%nat]); Ok (mkPluginResponse [1%nat])] [] [].

Definition test_run (scans : JsObject (list loc)) (w : World) :=
  testDependencies_body config World makeRequest_TestResult scans
                        (mkTestFrame [] [], start w).

Definition monitor_run (scans : JsObject (list loc)) (w : World) :=
  monitorDependencies_body config World
    makeRequest_MonitorDependenciesResponse scans options
    (mkMonitorFrame [] [], start w).

Definition test_scan (paths : list string) (w : World) :=
  testEcosystem_scan World plugin_scan docker paths
                     (mkScanFrame empty_obj options, start w).


(** Stand-ins for the formatter's collaborators: the counts of extra
    projects are answered from a queue of their own. *)
Definition formatMonitorOutput (packageManager : string)
    (res : EcosystemMonitorResult) (_ : Options) (projectName : string)
    (_ : option nat) : Res string :=
  Ok ("Monitoring " +:+ m_path res +:+ " (" +:+ projectName +:+ ") as " +:+
      packageManager).

Definition type_error : Exn :=
  mkExn None "Cannot read property 'meta' of undefined".

Definition getExtraProjectCount (_ : string) (_ : Options)
    (counts : list (Res (option nat)))
    : Res (option nat) * list (Res (option nat)) :=
  match counts with
  | [] => (Throw type_error, [])
  | r :: rest => (r, rest)
  end.

Definition MonitorError (_ : Z) (payload : EcosystemMonitorError)
    : ErrorData :=
  mkErrorData (Some (e_error payload)) (Some "Server returned unexpected error").

Definition plain (s : string) : string := s.

Definition format_run (monitorResults : list EcosystemMonitorResult)
    (errors : list EcosystemMonitorError)
    (counts : list (Res (option nat))) :=
  getFormattedMonitorOutput getExtraProjectCount formatMonitorOutput
                            MonitorError plain plain store
                            monitorResults errors options ([], counts).

Definition monitored_a : EcosystemMonitorResult :=
  mkMonitorResult (monitored "p0") "./a" 0%nat.

Definition monitored_b : EcosystemMonitorResult :=
  mkMonitorResult (monitored "p1") "./b" 1%nat.

Definition failed_b : EcosystemMonitorError :=
  mkMonitorError "Could not monitor dependencies in ./b" "./b" 1%nat.

(** The refused call of [test_refused]. *)
Definition refused_call : Call TestResult :=
  mkCall "./b" 1%nat (test_payload config (store 1%nat)) (Throw forbidden).

(** The failed call of [test_unavailable]. *)
Definition failed_call : Call TestResult :=
  mkCall "./a" 0%nat (test_payload config (store 0%nat)) (Throw unavailable).

(** The second call of [monitor_unavailable]. *)
Definition second_monitor_call : Call MonitorDependenciesResponse :=
  mkCall "./b" 1%nat
         (monitor_payload config (monitor_body config options 1%nat (store 1%nat)))
         (Throw unavailable).

End Script.

(** * Properties *)

(** ** Ecosystem selection and request building *)

(** C4. [getEcosystem] returns the source ecosystem whenever [source] is
    set, whatever [container] and [isDockerUser] are; the container
    ecosystem when [source] is unset, [container] is set and
    [isDockerUser] is not; and no ecosystem in every other case, in
    particular for [container] together with [isDockerUser]. *)
Theorem getEcosystem_selection (options : Options) :
  (is_set (o_source options) -> getEcosystem options = Some cpp) /\
  (~ is_set (o_source options) -> is_set (o_container options) ->
   ~ is_set (o_isDockerUser options) -> getEcosystem options = Some docker) /\
  (~ is_set (o_source options) ->
   ~ is_set (o_container options) \/ is_set (o_isDockerUser options) ->
   getEcosystem options = None).
Proof.
  unfold getEcosystem, is_set.
  destruct (truthy (o_source options)), (truthy (o_container options)),
    (truthy (o_isDockerUser options)); simpl; intuition congruence.
Qed.

(** C8. The request built by [generateMonitorDependenciesRequest]
    carries the scan result it was given and the method tag [cli]; its
    project name is the ['project-name'] option when that is set,
    otherwise the configured [PROJECT_NAME] when that is set, otherwise
    absent. *)
Theorem generateMonitorDependenciesRequest_fields
    (config : Config) (scanResult : loc) (options : Options) :
  let request := generateMonitorDependenciesRequest config scanResult options in
  q_scanResult request = scanResult /\
  q_method request = Some "cli" /\
  (is_set (project_name options) ->
   q_projectName request = project_name options) /\
  (~ is_set (project_name options) -> is_set (PROJECT_NAME config) ->
   q_projectName request = PROJECT_NAME config) /\
  (~ is_set (project_name options) -> ~ is_set (PROJECT_NAME config) ->
   q_projectName request = None).
Proof.
  unfold generateMonitorDependenciesRequest, is_set, js_or; simpl.
  destruct (truthy (project_name options)) eqn:Hp; simpl.
  - rewrite Hp. intuition congruence.
  - destruct (truthy (PROJECT_NAME config)) eqn:Hc; simpl;
      intuition congruence.
Qed.

(** ** Loops *)

Section Loops.

Context {S A : Type}.
Implicit Types (body : A -> M S unit) (s : S).

Lemma for_of_app xs ys body s :
  for_of (xs ++ ys) body s =
  match for_of xs body s with
  | (Ok _, s') => for_of ys body s'
  | (Throw e, s') => (Throw e, s')
  end.
Proof.
  revert s. induction xs as [|x xs IH]; intros s; simpl; [done|].
  unfold bind. destruct (body x s) as [[[]|e] s']; [apply IH|done].
Qed.

Lemma for_of_map {B} (g : B -> A) (xs : list B) body s :
  for_of (map g xs) body s = for_of xs (fun x => body (g x)) s.
Proof.
  revert s. induction xs as [|x xs IH]; intros s; simpl; [done|].
  unfold bind. destruct (body (g x) s) as [[[]|e] s']; [apply IH|done].
Qed.

(** The invariant rule of a [for...of] loop: [I done] holds of the
    state after the elements [done]; when the body throws on [x], the
    loop throws the same error and [Q done x] holds of the state. *)
Lemma for_of_inv body (I : list A -> S -> Prop)
    (Q : list A -> A -> Exn -> S -> Prop) :
  (forall done x s, I done s ->
     match body x s with
     | (Ok _, s') => I (done ++ [x]) s'
     | (Throw e, s') => Q done x e s'
     end) ->
  forall todo done s, I done s ->
    match for_of todo body s with
    | (Ok _, s') => I (done ++ todo) s'
    | (Throw e, s') =>
        exists pre x post, todo = pre ++ x :: post /\ Q (done ++ pre) x e s'
    end.
Proof.
  intros Hbody. induction todo as [|x todo IH]; intros done s HI; simpl.
  - by rewrite app_nil_r.
  - unfold bind. specialize (Hbody done x s HI).
    destruct (body x s) as [[[]|e] s'].
    + specialize (IH (done ++ [x]) s' Hbody).
      destruct (for_of todo body s') as [[[]|e] s''].
      * by rewrite <- app_assoc in IH.
      * destruct IH as (pre & y & post & -> & HQ).
        exists (x :: pre), y, post. split; [done|].
        by rewrite <- app_assoc in HQ.
    + exists [], x, todo. split; [done|]. by rewrite app_nil_r.
Qed.

End Loops.

(** ** The formatter *)

Section FormatterProperties.

Context {World : Type}
        (getExtraProjectCount :
           string -> Options -> World -> Res (option nat) * World)
        (formatMonitorOutput :
           string -> EcosystemMonitorResult -> Options -> string ->
           option nat -> Res string)
        (MonitorError : Z -> EcosystemMonitorError -> ErrorData)
        (bold_red bold_white : string -> string).

Local Abbreviation failure := (failure_entry MonitorError).
Local Abbreviation rendered := (render bold_red bold_white).
Local Abbreviation report_of := (report bold_red bold_white).
Local Abbreviation texts_of :=
  (texts getExtraProjectCount formatMonitorOutput).
Local Abbreviation format :=
  (getFormattedMonitorOutput getExtraProjectCount formatMonitorOutput
                             MonitorError bold_red bold_white).

(** The first loop pushes a success for each text it obtains and
    leaves with the first failure of a collaborator. *)
Lemma success_loop h options monitorResults results w :
  for_of monitorResults
    (fun monitorResult =>
       (data <- global (monOutput getExtraProjectCount formatMonitorOutput
                                  h options monitorResult) ;;
        local (push (success_entry data monitorResult)))%js) (results, w) =
  match texts_of h options monitorResults w with
  | (datas, None, w') =>
      (Ok tt, (results ++ zip_with success_entry datas monitorResults, w'))
  | (datas, Some e, w') =>
      (Throw e, (results ++ zip_with success_entry datas monitorResults, w'))
  end.
Proof.
  revert results w.
  induction monitorResults as [|m ms IH]; intros results w.
  - cbn. by rewrite app_nil_r.
  - cbn [for_of texts]. unfold bind at 1. unfold bind at 1.
    unfold global at 1. cbn [fst snd].
    destruct (monOutput _ _ h options m w) as [[data|e] w1].
    + unfold local at 1, push at 1, modify at 1. cbn [fst snd].
      rewrite IH.
      destruct (texts_of h options ms w1) as [[datas [e|]] w2];
        cbn [zip_with]; by rewrite <- app_assoc.
    + cbn [zip_with]. by rewrite app_nil_r.
Qed.

Lemma failure_loop (errors : list EcosystemMonitorError) results (w : World) :
  for_of errors (fun monitorError => local (push (failure monitorError)))
         (results, w) =
  (Ok tt, (results ++ map failure errors, w)).
Proof.
  revert results. induction errors as [|x xs IH]; intros results.
  - cbn. by rewrite app_nil_r.
  - cbn [for_of map]. unfold bind at 1, local at 1, push at 1, modify at 1.
    cbn [fst snd]. rewrite IH. by rewrite <- app_assoc.
Qed.

(** There is a text for each monitor result before the first failure,
    and for every monitor result when there is no failure. *)
Lemma texts_length h options monitorResults w datas failed w' :
  texts_of h options monitorResults w = (datas, failed, w') ->
  match failed with
  | None => length datas = length monitorResults
  | Some _ => (length datas < length monitorResults)%nat
  end.
Proof.
  revert w datas. induction monitorResults as [|m ms IH]; intros w datas.
  - cbn. intros [= <- <- <-]. done.
  - cbn [texts].
    destruct (monOutput _ _ h options m w) as [[data|e] w1].
    + destruct (texts_of h options ms w1) as [[ds f] w2] eqn:Hrest.
      intros [= <- <- <-]. apply IH in Hrest.
      destruct f; cbn [length]; lia.
    + intros [= <- <- <-]. cbn. lia.
Qed.

(** Collaborators that always return leave no failure. *)
Lemma texts_returning h options monitorResults w :
  (forall root opts w0,
     exists n w1, getExtraProjectCount root opts w0 = (Ok n, w1)) ->
  (forall packageManager res opts projectName n,
     exists data,
       formatMonitorOutput packageManager res opts projectName n = Ok data) ->
  (texts_of h options monitorResults w).1.2 = None.
Proof.
  intros Hcount Hformat. revert w.
  induction monitorResults as [|m ms IH]; intros w; [done|].
  cbn [texts]. unfold monOutput at 1, bind at 1.
  destruct (Hcount (m_path m) options w) as (n & w1 & ->).
  destruct (Hformat (id_type (identity (h (m_scanResult m)))) m options
                    (r_projectName (m_response m)) n) as [data ->].
  specialize (IH w1).
  by destruct (texts_of h options ms w1) as [[datas failed] w2].
Qed.

Lemma getFormattedMonitorOutput_run h monitorResults errors options results w :
  format h monitorResults errors options (results, w) =
  match texts_of h options monitorResults w with
  | (datas, None, w') =>
      let collected :=
        results ++ zip_with success_entry datas monitorResults ++
        map failure errors in
      (if forallb ok collected
       then Ok (report_of collected)
       else Throw (new_Error (report_of collected)),
       (collected, w'))
  | (datas, Some e, w') =>
      (Throw e, (results ++ zip_with success_entry datas monitorResults, w'))
  end.
Proof.
  unfold getFormattedMonitorOutput. unfold bind at 1.
  rewrite success_loop.
  destruct (texts_of h options monitorResults w) as [[datas [e|]] w']; [done|].
  unfold bind at 1. rewrite failure_loop.
  unfold bind, gets. cbn [fst snd]. rewrite <- app_assoc.
  by destruct (forallb ok _).
Qed.

(** C6. When every call of [getExtraProjectCount] and
    [formatMonitorOutput] made for the monitor results returns: with
    every collected entry a success, the formatter returns the joined
    report; with at least one failure among them, it throws an error
    whose message is that same joined report of all the entries,
    successes and failures alike. When one of those calls fails, the
    formatter throws that failure and no report. *)
Theorem getFormattedMonitorOutput_outcome
    h monitorResults errors options results w :
  let run := format h monitorResults errors options (results, w) in
  (forall datas w',
     texts_of h options monitorResults w = (datas, None, w') ->
     let collected :=
       results ++ zip_with success_entry datas monitorResults ++
       map failure errors in
     let outputString := join (LF +:+ SEPARATOR) (map rendered collected) in
     length datas = length monitorResults /\
     (Forall (fun res => ok res = true) collected ->
      run.1 = Ok outputString) /\
     (Exists (fun res => ok res = false) collected ->
      run.1 = Throw (new_Error outputString))) /\
  (forall datas e w',
     texts_of h options monitorResults w = (datas, Some e, w') ->
     run.1 = Throw e).
Proof.
  intros run. subst run. rewrite getFormattedMonitorOutput_run.
  split.
  - intros datas w' Htexts collected outputString. rewrite Htexts.
    split; [exact (texts_length _ _ _ _ _ _ _ Htexts)|].
    cbn [fst]. fold collected. split; intros H.
    + replace (forallb ok collected) with true; [done|].
      symmetry. apply forallb_forall. intros res Hin.
      rewrite Forall_forall in H. by apply H.
    + replace (forallb ok collected) with false; [done|].
      symmetry. apply not_true_is_false. intros Hall.
      rewrite forallb_forall in Hall.
      apply Exists_exists in H as (res & Hin & Hres).
      apply Hall in Hin. congruence.
  - intros datas e w' Htexts. by rewrite Htexts.
Qed.

(** C10. The formatter appends to the array it was given. It pushes
    one success per monitor result, in their order, for as long as
    [getExtraProjectCount] and [formatMonitorOutput] return. When they
    return for every monitor result it then pushes one failure per
    monitor error, in their order, and the report renders the entries
    of the array in that order, so every monitor success comes before
    every monitor failure. When one of them fails, the array keeps the
    successes pushed before, gets no failure entry, and the call throws
    what the collaborator threw. *)
Theorem getFormattedMonitorOutput_appends
    h monitorResults errors options results w :
  let run := format h monitorResults errors options (results, w) in
  exists datas failed w',
    texts_of h options monitorResults w = (datas, failed, w') /\
    let successes := zip_with success_entry datas monitorResults in
    let failures := map failure errors in
    Forall (fun res => ok res = true) successes /\
    Forall (fun res => ok res = false) failures /\
    match failed with
    | None =>
        let outputString :=
          join (LF +:+ SEPARATOR)
               (map rendered results ++ map rendered successes ++
                map rendered failures) in
        length successes = length monitorResults /\
        run.2.1 = results ++ successes ++ failures /\
        (run.1 = Ok outputString \/ run.1 = Throw (new_Error outputString))
    | Some e =>
        (length successes < length monitorResults)%nat /\
        run.2.1 = results ++ successes /\
        run.1 = Throw e
    end.
Proof.
  intros run. subst run. rewrite getFormattedMonitorOutput_run.
  destruct (texts_of h options monitorResults w) as [[datas failed] w']
    eqn:Htexts.
  exists datas, failed, w'. split; [done|].
  intros successes failures.
  assert (Hlen : length successes = Nat.min (length datas) (length monitorResults))
    by (subst successes; apply length_zip_with).
  pose proof (texts_length _ _ _ _ _ _ _ Htexts) as Hdatas.
  split; [|split].
  - subst successes. clear. revert monitorResults.
    induction datas as [|d ds IH]; intros [|m ms]; cbn [zip_with];
      try by constructor.
  - subst failures. by apply Forall_map, Forall_true.
  - destruct failed as [e|].
    + split; [lia|]. done.
    + split; [lia|]. cbn [fst snd]. split; [done|].
      unfold report. rewrite !map_app.
      destruct (forallb ok _); [by left|by right].
Qed.

End FormatterProperties.

(** ** The loop nest of the submission functions *)

Section Nest.

Context {World L : Type}.
Variable prefix : string.
Variable step : string -> loc -> M (L * State World) unit.

(** The two nested loops make the turns of [schedule] one by one. *)
Lemma nest_schedule (entries : list (string * list loc)) s :
  for_of entries
    (fun entry =>
       (global (spinner (prefix +:+ entry.1)) ;;;
        for_of entry.2 (step entry.1))%js) s =
  for_of (schedule entries) (run_item prefix step) s.
Proof.
  revert s. induction entries as [|[p ls] entries IH]; intros s; [done|].
  cbn [for_of schedule fst snd run_item]. unfold bind in *.
  destruct (global (spinner (prefix +:+ p)) s) as [[[]|e] s1]; [|done].
  rewrite for_of_app, for_of_map. cbn [run_item].
  destruct (for_of ls _ s1) as [[[]|e] s2]; [apply IH|done].
Qed.

Lemma pairs_in_app (xs ys : list Item) :
  pairs_in (xs ++ ys) = pairs_in xs ++ pairs_in ys.
Proof. apply omap_app. Qed.

Lemma pairs_in_submit p (ls : list loc) :
  pairs_in (map (Submit p) ls) = map (pair p) ls.
Proof. induction ls as [|l ls IH]; [done|]. cbn. by f_equal. Qed.

Lemma pairs_in_schedule (entries : list (string * list loc)) :
  pairs_in (schedule entries) = pairs_of entries.
Proof.
  induction entries as [|[p ls] entries IH]; [done|].
  cbn [schedule pairs_of fst snd].
  change (pairs_in (Enter p :: ?l)) with (pairs_in l).
  by rewrite pairs_in_app, pairs_in_submit, IH.
Qed.

(** A scan result is submitted only after its path was entered. *)
Lemma schedule_entered (entries : list (string * list loc)) pre p l post :
  schedule entries = pre ++ Submit p l :: post -> Enter p ∈ pre.
Proof.
  revert pre. induction entries as [|[q ls] entries IH]; intros pre Heq.
  - by destruct pre.
  - cbn [schedule fst snd] in Heq.
    destruct pre as [|x pre]; [done|].
    injection Heq as <- Heq.
    assert (Hcases : (exists ls1 ls2, ls = ls1 ++ l :: ls2 /\ q = p /\
                        pre = map (Submit q) ls1) \/
                     (exists pre', pre = map (Submit q) ls ++ pre' /\
                        schedule entries = pre' ++ Submit p l :: post)).
    { clear IH. revert pre Heq.
      induction ls as [|l0 ls IHls]; intros pre Heq; cbn in Heq.
      - right. by exists pre.
      - destruct pre as [|y pre]; cbn in Heq.
        + injection Heq as Hq Hl Heq. subst. left. by exists [], ls.
        + injection Heq as <- Heq.
          destruct (IHls _ Heq) as [(ls1 & ls2 & -> & -> & ->)|(pre' & -> & H)].
          * left. by exists (l0 :: ls1), ls2.
          * right. by exists pre'. }
    destruct Hcases as [(ls1 & ls2 & _ & -> & _)|(pre' & -> & H)].
    + apply list_elem_of_here.
    + apply list_elem_of_further, elem_of_app. right. by apply IH.
Qed.

End Nest.

(** ** The shape of a submission run *)

Section Shape.

Context {R : Type}.
Variable call_of : Event -> option (Call R).
Hypothesis call_of_spinner : forall label, call_of (EvSpinner label) = None.
Hypothesis call_of_clear : call_of EvClearAll = None.
Variable prefix : string.
Variable sent : loc -> Payload -> Prop.

(** The event a turn of the loop nest leaves when it does not throw. *)
Definition turn (it : Item) (ev : Event) : Prop :=
  match it with
  | Enter p => ev = EvSpinner (prefix +:+ p)
  | Submit p l =>
      exists c, call_of ev = Some c /\ c_target c = (p, l) /\
                fatal c = false /\ sent l (c_payload c)
  end.

Lemma turns_targets items evs :
  Forall2 turn items evs -> map c_target (omap call_of evs) = pairs_in items.
Proof.
  induction 1 as [|it ev items evs Hturn _ IH]; [done|].
  destruct it as [p|p l]; cbn in *.
  - subst ev. by rewrite call_of_spinner.
  - destruct Hturn as (c & -> & Hc & _). cbn. by rewrite Hc, IH.
Qed.

Lemma turns_not_fatal items evs :
  Forall2 turn items evs ->
  Forall (fun c => fatal c = false) (omap call_of evs).
Proof.
  induction 1 as [|it ev items evs Hturn _ IH]; [by constructor|].
  destruct it as [p|p l]; cbn in *.
  - subst ev. by rewrite call_of_spinner.
  - destruct Hturn as (c & -> & _ & Hc & _). by constructor.
Qed.

Lemma turns_sent items evs :
  Forall2 turn items evs ->
  Forall (fun c => sent (c_scanResult c) (c_payload c)) (omap call_of evs).
Proof.
  induction 1 as [|it ev items evs Hturn _ IH]; [by constructor|].
  destruct it as [p|p l]; cbn in *.
  - subst ev. by rewrite call_of_spinner.
  - destruct Hturn as (c & -> & Hc & _ & Hs). constructor; [|done].
    destruct c; cbn in *. by injection Hc as _ ->.
Qed.

Lemma turns_not_cleared items evs :
  Forall2 turn items evs -> EvClearAll ∉ evs.
Proof.
  induction 1 as [|it ev items evs Hturn _ IH]; [apply not_elem_of_nil|].
  apply not_elem_of_cons. split; [|done].
  destruct it as [p|p l]; cbn in Hturn.
  - by subst ev.
  - destruct Hturn as (c & Hc & _). intros <-. congruence.
Qed.

Lemma turns_entered items evs p :
  Forall2 turn items evs -> Enter p ∈ items ->
  EvSpinner (prefix +:+ p) ∈ evs.
Proof.
  induction 1 as [|it ev items evs Hturn _ IH]; intros Hin.
  - by apply elem_of_nil in Hin.
  - apply elem_of_cons in Hin as [<-|Hin].
    + cbn in Hturn. subst ev. apply list_elem_of_here.
    + apply list_elem_of_further. by apply IH.
Qed.

(** From the turns taken to the shape of the run. *)
Lemma turns_completed entries evs :
  Forall2 turn (schedule entries) evs ->
  completed (pairs_of entries) (evs ++ [EvClearAll]) (omap call_of evs).
Proof.
  intros Hturns. split; [|split].
  - by rewrite (turns_targets _ _ Hturns), pairs_in_schedule.
  - by eapply turns_not_fatal.
  - exists evs. split; [done|]. by eapply turns_not_cleared.
Qed.

Lemma turns_aborted entries pre p l post evs ev c err :
  schedule entries = pre ++ Submit p l :: post ->
  Forall2 turn pre evs ->
  call_of ev = Some c -> c_target c = (p, l) ->
  c_result c = Throw err -> client_error err = true ->
  aborted prefix (pairs_of entries) (evs ++ [ev])
          (omap call_of (evs ++ [ev])) (new_Error (exn_message err)).
Proof.
  intros Hsched Hturns Hev Hc Herr Hfatal.
  exists (omap call_of evs), c, err, (pairs_in post).
  split; [|split; [|split; [|split; [|split; [|split; [|split]]]]]]; try done.
  - rewrite omap_app. cbn. by rewrite Hev.
  - rewrite <- pairs_in_schedule, Hsched, pairs_in_app.
    cbn. by rewrite (turns_targets _ _ Hturns), Hc.
  - by eapply turns_not_fatal.
  - apply not_elem_of_app. split; [by eapply turns_not_cleared|].
    apply not_elem_of_cons. split; [|apply not_elem_of_nil].
    intros <-. congruence.
  - apply elem_of_app. left.
    replace (c_path c) with p by (by destruct c; injection Hc).
    eapply turns_entered; [done|]. by eapply schedule_entered.
Qed.

End Shape.

(** ** testDependencies *)

Section TestDependencies.

Context (config : Config) {World : Type}
        (makeRequest_TestResult : Payload -> World -> Res TestResult * World).

Local Abbreviation step := (test_step config World makeRequest_TestResult).
Local Abbreviation body :=
  (testDependencies_body config World makeRequest_TestResult).
Local Abbreviation prefix := "Testing dependencies in ".

(** The body of a scan result is the object as the store holds it. *)
Definition test_sent (h : Heap) (l : loc) (payload : Payload) : Prop :=
  payload = test_payload config (h l).

Local Abbreviation test_turn h := (turn test_call_of prefix (test_sent h)).

Definition test_inv (st0 : State World) (done : list Item)
    (s : TestFrame * State World) : Prop :=
  exists evs,
    trace s.2 = trace st0 ++ evs /\
    heap s.2 = heap st0 /\
    Forall2 (test_turn (heap st0)) done evs /\
    t_results s.1 = omap response (test_calls evs) /\
    t_errors s.1 = omap test_error (test_calls evs).

Definition test_abort (st0 : State World) (done : list Item) (x : Item)
    (e : Exn) (s : TestFrame * State World) : Prop :=
  exists evs p l err,
    x = Submit p l /\
    trace s.2 =
      trace st0 ++ evs ++
      [EvTest p l (test_payload config (heap st0 l)) (Throw err)] /\
    heap s.2 = heap st0 /\
    Forall2 (test_turn (heap st0)) done evs /\
    client_error err = true /\
    e = new_Error (exn_message err) /\
    t_results s.1 = omap response (test_calls evs) /\
    t_errors s.1 = omap test_error (test_calls evs).

Lemma test_calls_snoc evs ev :
  test_calls (evs ++ [ev]) =
  test_calls evs ++ from_option (fun c => [c]) [] (test_call_of ev).
Proof. unfold test_calls. rewrite omap_app. by f_equal. Qed.

Lemma test_turn_preserves st0 done x s :
  test_inv st0 done s ->
  match run_item prefix step x s with
  | (Ok _, s') => test_inv st0 (done ++ [x]) s'
  | (Throw e, s') => test_abort st0 done x e s'
  end.
Proof.
  intros (evs & Htr & Hh & Hturns & Hres & Herr).
  destruct s as [f st]; cbn [fst snd] in *.
  destruct x as [p|p l]; cbn.
  - exists (evs ++ [EvSpinner (prefix +:+ p)]). cbn.
    rewrite Htr, <- app_assoc, test_calls_snoc, app_nil_r.
    repeat split; try done.
    apply Forall2_app; [done|]. by repeat constructor.
  - unfold test_step, bind, try_catch, global, local, deref, gets,
      request_test, push_test_result, push_test_error, modify, throw; cbn.
    destruct (makeRequest_TestResult _ (world st)) as [[resp|err] w] eqn:Hreq;
      cbn.
    + exists (evs ++ [EvTest p l (test_payload config (heap st0 l)) (Ok resp)]).
      rewrite Hh, Htr, <- app_assoc, test_calls_snoc, !omap_app; cbn.
      rewrite Hres, Herr, app_nil_r.
      repeat split; try done.
      apply Forall2_app; [done|]. constructor; [|constructor].
      by eexists.
    + destruct (client_error err) eqn:Hfatal; cbn.
      * exists evs, p, l, err. rewrite Hh, Htr, <- app_assoc.
        by repeat split.
      * exists (evs ++ [EvTest p l (test_payload config (heap st0 l))
                               (Throw err)]).
        rewrite Hh, Htr, <- app_assoc, test_calls_snoc, !omap_app; cbn.
        unfold test_error at 2, soft; cbn. rewrite Hfatal; cbn.
        rewrite Hres, Herr, app_nil_r.
        repeat split; try done.
        apply Forall2_app; [done|]. constructor; [|constructor].
        eexists. by repeat split.
Qed.

(** What a run of the function body leaves behind. *)
Lemma testDependencies_body_shape scans st :
  exists r f st' evs,
    body scans (mkTestFrame [] [], st) = (r, (f, st')) /\
    trace st' = trace st ++ evs /\
    heap st' = heap st /\
    t_results f = omap response (test_calls evs) /\
    t_errors f = omap test_error (test_calls evs) /\
    Forall (fun c => test_sent (heap st) (c_scanResult c) (c_payload c))
           (test_calls evs) /\
    match r with
    | Ok v =>
        v = (t_results f, t_errors f) /\
        completed (submissions scans) evs (test_calls evs)
    | Throw e => aborted prefix (submissions scans) evs (test_calls evs) e
    end.
Proof.
  assert (Hinit : test_inv st [] (mkTestFrame [] [], st)).
  { exists []. rewrite app_nil_r. repeat split; constructor. }
  pose proof (for_of_inv _ _ _ (test_turn_preserves st)
                (schedule (Object_entries scans)) [] _ Hinit) as Hloop.
  unfold testDependencies_body. unfold bind at 1. rewrite nest_schedule.
  destruct (for_of (schedule _) _ _) as [[[]|e] [f st']].
  - destruct Hloop as (evs & Htr & Hh & Hturns & Hres & Herr).
    cbn [fst snd app] in *.
    exists (Ok (t_results f, t_errors f)), f,
      (mkState (world st') (heap st') (trace st' ++ [EvClearAll])),
      (evs ++ [EvClearAll]).
    rewrite test_calls_snoc, app_nil_r. cbn [trace heap].
    split_and!; try done.
    + by rewrite Htr, <- app_assoc.
    + by eapply turns_sent.
    + by eapply (turns_completed test_call_of).
  - destruct Hloop as (pre & x & post & Hsched & Habort).
    destruct Habort as (evs & p & l & err & -> & Htr & Hh & Hturns &
                          Hfatal & -> & Hres & Herr).
    cbn [fst snd app] in *.
    set (ev := EvTest p l (test_payload config (heap st l)) (Throw err)) in *.
    assert (Hlast : test_calls (evs ++ [ev]) =
                    test_calls evs ++ [mkCall p l (test_payload config (heap st l))
                                              (Throw err)])
      by apply test_calls_snoc.
    exists (Throw (new_Error (exn_message err))), f, st', (evs ++ [ev]).
    split_and!; try done.
    + rewrite Hlast, omap_app; cbn. by rewrite app_nil_r.
    + rewrite Hlast, omap_app; cbn.
      unfold test_error at 2, soft; cbn. rewrite Hfatal; cbn.
      by rewrite app_nil_r.
    + rewrite Hlast. apply Forall_app. split; [by eapply turns_sent|].
      by repeat constructor.
    + by eapply (turns_aborted test_call_of).
Qed.

End TestDependencies.

(** ** monitorDependencies *)

Lemma filter_facts_idem (fs : list Facts) :
  filter_facts (filter_facts fs) = filter_facts fs.
Proof.
  unfold filter_facts. induction fs as [|fact fs IH]; [done|].
  rewrite filter_cons. destruct (decide _) as [Hkeep|Hdrop]; [|done].
  by rewrite filter_cons_True, IH.
Qed.

Lemma filtered_idem (sr : ScanResult) : filtered (filtered sr) = filtered sr.
Proof. unfold filtered, set_facts; cbn. by rewrite filter_facts_idem. Qed.

Section MonitorDependencies.

Context (config : Config) {World : Type}
        (makeRequest_MonitorDependenciesResponse :
           Payload -> World -> Res MonitorDependenciesResponse * World).
Variable options : Options.

Local Abbreviation step :=
  (monitor_step config World makeRequest_MonitorDependenciesResponse options).
Local Abbreviation body :=
  (monitorDependencies_body config World
                            makeRequest_MonitorDependenciesResponse).
Local Abbreviation prefix := "Monitoring dependencies in ".

(** The body carries the scan result with its facts filtered. *)
Definition monitor_sent (h : Heap) (l : loc) (payload : Payload) : Prop :=
  payload = monitor_payload config (monitor_body config options l (h l)).

Local Abbreviation monitor_turn h :=
  (turn monitor_call_of prefix (monitor_sent h)).

Definition refs_in (items : list Item) : list loc := map snd (pairs_in items).

Definition monitor_inv (st0 : State World) (done : list Item)
    (s : MonitorFrame * State World) : Prop :=
  exists evs,
    trace s.2 = trace st0 ++ evs /\
    (forall l, heap s.2 l = filtered_at (refs_in done) (heap st0) l) /\
    Forall2 (monitor_turn (heap st0)) done evs /\
    m_results s.1 = omap monitor_result (monitor_calls evs) /\
    m_errors s.1 = omap monitor_error (monitor_calls evs).

Definition monitor_abort (st0 : State World) (done : list Item) (x : Item)
    (e : Exn) (s : MonitorFrame * State World) : Prop :=
  exists evs p l err,
    x = Submit p l /\
    trace s.2 =
      trace st0 ++ evs ++
      [EvMonitor p l
         (monitor_payload config (monitor_body config options l (heap st0 l)))
         (Throw err)] /\
    (forall l', heap s.2 l' = filtered_at (refs_in (done ++ [x])) (heap st0) l') /\
    Forall2 (monitor_turn (heap st0)) done evs /\
    client_error err = true /\
    e = new_Error (exn_message err) /\
    m_results s.1 = omap monitor_result (monitor_calls evs) /\
    m_errors s.1 = omap monitor_error (monitor_calls evs).

Lemma monitor_calls_snoc evs ev :
  monitor_calls (evs ++ [ev]) =
  monitor_calls evs ++ from_option (fun c => [c]) [] (monitor_call_of ev).
Proof. unfold monitor_calls. rewrite omap_app. by f_equal. Qed.

Lemma refs_in_snoc done p l : refs_in (done ++ [Submit p l]) = refs_in done ++ [l].
Proof. unfold refs_in. by rewrite pairs_in_app, map_app. Qed.

Lemma refs_in_enter done p : refs_in (done ++ [Enter p]) = refs_in done.
Proof. unfold refs_in. by rewrite pairs_in_app, map_app, app_nil_r. Qed.

(** Filtering the object at [l] once more leaves the store as if [l]
    had been added to the scan results gone through. *)
Lemma filtered_at_insert (ls : list loc) (h0 h : Heap) l :
  (forall l', h l' = filtered_at ls h0 l') ->
  filtered (h l) = filtered (h0 l) /\
  forall l', <[l := filtered (h l)]> h l' = filtered_at (ls ++ [l]) h0 l'.
Proof.
  intros Hh.
  assert (Hl : filtered (h l) = filtered (h0 l)).
  { rewrite Hh. unfold filtered_at.
    destruct (decide (l ∈ ls)); [apply filtered_idem|done]. }
  split; [done|]. intros l'. unfold filtered_at.
  destruct (decide (l = l')) as [<-|Hne].
  - rewrite fn_lookup_insert, Hl.
    rewrite decide_True; [done|]. apply elem_of_app. right.
    apply list_elem_of_here.
  - rewrite fn_lookup_insert_ne by done. rewrite Hh. unfold filtered_at.
    destruct (decide (l' ∈ ls)) as [Hin|Hout].
    + rewrite decide_True; [done|]. apply elem_of_app. by left.
    + rewrite decide_False; [done|].
      rewrite elem_of_app, list_elem_of_singleton. by intros [Hin| ->].
Qed.

Lemma monitor_turn_preserves st0 done x s :
  monitor_inv st0 done s ->
  match run_item prefix step x s with
  | (Ok _, s') => monitor_inv st0 (done ++ [x]) s'
  | (Throw e, s') => monitor_abort st0 done x e s'
  end.
Proof.
  intros (evs & Htr & Hh & Hturns & Hres & Herr).
  destruct s as [f st]; cbn [fst snd] in *.
  destruct x as [p|p l]; cbn.
  - exists (evs ++ [EvSpinner (prefix +:+ p)]). cbn.
    rewrite Htr, <- app_assoc, monitor_calls_snoc, app_nil_r, refs_in_enter.
    split_and!; try done.
    apply Forall2_app; [done|]. by repeat constructor.
  - destruct (filtered_at_insert _ _ _ l Hh) as [Hl Hh'].
    rewrite <- refs_in_snoc with (p := p) in Hh'.
    unfold monitor_step, bind, try_catch, global, local, deref, store, gets,
      request_monitor, push_monitor_result, push_monitor_error, modify,
      throw, serialize; cbn.
    rewrite fn_lookup_insert.
    change (set_facts (filter_facts (facts (heap st l))) (heap st l))
      with (filtered (heap st l)).
    change (MonitorBody (filtered (heap st l)) _ _ _)
      with (monitor_body config options l (heap st l)).
    replace (monitor_body config options l (heap st l))
      with (monitor_body config options l (heap st0 l))
      by (unfold monitor_body; by rewrite Hl).
    set (payload := monitor_payload config _).
    destruct (makeRequest_MonitorDependenciesResponse payload (world st))
      as [[resp|err] w] eqn:Hreq; cbn.
    + exists (evs ++ [EvMonitor p l payload (Ok resp)]).
      rewrite Htr, <- app_assoc, monitor_calls_snoc, !omap_app; cbn.
      rewrite Hres, Herr, app_nil_r.
      split_and!; try done.
      apply Forall2_app; [done|]. constructor; [|constructor].
      by eexists.
    + destruct (client_error err) eqn:Hfatal; cbn.
      * exists evs, p, l, err. rewrite Htr, <- app_assoc.
        by split_and!.
      * exists (evs ++ [EvMonitor p l payload (Throw err)]).
        rewrite Htr, <- app_assoc, monitor_calls_snoc, !omap_app; cbn.
        unfold monitor_error at 2, soft; cbn. rewrite Hfatal; cbn.
        rewrite Hres, Herr, app_nil_r.
        split_and!; try done.
        apply Forall2_app; [done|]. constructor; [|constructor].
        eexists. by split_and!.
Qed.

Lemma turns_refs h done evs :
  Forall2 (monitor_turn h) done evs ->
  refs_in done = map c_scanResult (monitor_calls evs).
Proof.
  intros Hturns. unfold refs_in, monitor_calls.
  rewrite <- (turns_targets monitor_call_of (fun _ => eq_refl) _ _ _ _ Hturns).
  by rewrite map_map.
Qed.

(** What a run of the function body leaves behind. *)
Lemma monitorDependencies_body_shape scans st :
  exists r f st' evs,
    body scans options (mkMonitorFrame [] [], st) = (r, (f, st')) /\
    trace st' = trace st ++ evs /\
    (forall l, heap st' l =
               filtered_at (map c_scanResult (monitor_calls evs)) (heap st) l) /\
    m_results f = omap monitor_result (monitor_calls evs) /\
    m_errors f = omap monitor_error (monitor_calls evs) /\
    Forall (fun c => monitor_sent (heap st) (c_scanResult c) (c_payload c))
           (monitor_calls evs) /\
    match r with
    | Ok v =>
        v = (m_results f, m_errors f) /\
        completed (submissions scans) evs (monitor_calls evs)
    | Throw e =>
        aborted prefix (submissions scans) evs (monitor_calls evs) e
    end.
Proof.
  assert (Hinit : monitor_inv st [] (mkMonitorFrame [] [], st)).
  { exists []. rewrite app_nil_r. by split_and!. }
  pose proof (for_of_inv _ _ _ (monitor_turn_preserves st)
                (schedule (Object_entries scans)) [] _ Hinit) as Hloop.
  unfold monitorDependencies_body. unfold bind at 1. rewrite nest_schedule.
  destruct (for_of (schedule _) _ _) as [[[]|e] [f st']].
  - destruct Hloop as (evs & Htr & Hh & Hturns & Hres & Herr).
    cbn [fst snd app] in *.
    exists (Ok (m_results f, m_errors f)), f,
      (mkState (world st') (heap st') (trace st' ++ [EvClearAll])),
      (evs ++ [EvClearAll]).
    rewrite monitor_calls_snoc, app_nil_r. cbn [trace heap].
    split_and!; try done.
    + by rewrite Htr, <- app_assoc.
    + intros l. by rewrite Hh, (turns_refs _ _ _ Hturns).
    + by eapply turns_sent.
    + by eapply (turns_completed monitor_call_of).
  - destruct Hloop as (pre & x & post & Hsched & Habort).
    destruct Habort as (evs & p & l & err & -> & Htr & Hh & Hturns &
                          Hfatal & -> & Hres & Herr).
    cbn [fst snd app] in *.
    set (payload :=
           monitor_payload config
             (monitor_body config options l (heap st l))) in *.
    set (ev := EvMonitor p l payload (Throw err)) in *.
    assert (Hlast : monitor_calls (evs ++ [ev]) =
                    monitor_calls evs ++ [mkCall p l payload (Throw err)])
      by apply monitor_calls_snoc.
    exists (Throw (new_Error (exn_message err))), f, st', (evs ++ [ev]).
    split_and!; try done.
    + intros l'.
      by rewrite Hh, refs_in_snoc, (turns_refs _ _ _ Hturns), Hlast, map_app.
    + rewrite Hlast, omap_app; cbn. by rewrite app_nil_r.
    + rewrite Hlast, omap_app; cbn.
      unfold monitor_error at 2, soft; cbn. rewrite Hfatal; cbn.
      by rewrite app_nil_r.
    + rewrite Hlast. apply Forall_app. split; [by eapply turns_sent|].
      by repeat constructor.
    + by eapply (turns_aborted monitor_call_of).
Qed.

End MonitorDependencies.

(** ** What the shape of a run entails *)

Section Consequences.

Context {R : Type}.
Implicit Types (calls : list (Call R)) (subs : list (string * loc)).

Lemma events_since_app {World} (st st' : State World) evs :
  trace st' = trace st ++ evs -> events_since st st' = evs.
Proof. unfold events_since. intros ->. by rewrite drop_app_length. Qed.

Lemma completed_not_fatal subs evs calls k c :
  completed subs evs calls -> calls !! k = Some c -> fatal c = false.
Proof.
  intros (_ & Hall & _) Hk.
  rewrite Forall_lookup in Hall. by eapply Hall.
Qed.

(** The call that met the client error is the last one made. *)
Lemma aborted_at prefix subs evs calls e k c :
  aborted prefix subs evs calls e ->
  calls !! k = Some c -> fatal c = true ->
  exists err,
    c_result c = Throw err /\ e = new_Error (exn_message err) /\
    length calls = S k /\
    map c_target calls = take (S k) subs /\
    Forall (fun c => fatal c = false) (take k calls).
Proof.
  intros (calls0 & cl & err & post & -> & -> & Hall & Hres & Hfatal &
            -> & _) Hk Hc.
  rewrite Forall_lookup in Hall.
  destruct (decide (k < length calls0)%nat) as [Hlt|Hge].
  - rewrite lookup_app_l in Hk by done. apply Hall in Hk. congruence.
  - rewrite lookup_app_r in Hk by lia.
    destruct (k - length calls0)%nat as [|n] eqn:Hn; [|done].
    injection Hk as <-. assert (k = length calls0) as -> by lia.
    exists err. split_and!; try done.
    + rewrite length_app. cbn. lia.
    + rewrite map_app. cbn [map].
      rewrite (cons_middle (c_target cl) (map c_target calls0) post), app_assoc.
      symmetry. apply take_app_length'.
      rewrite length_app, length_map; cbn; lia.
    + rewrite take_app_length. by apply Forall_lookup.
Qed.

(** After a call that met no client error, the next pair is
    submitted. *)
Lemma shape_continues prefix subs evs calls (r : Res unit) k c x :
  match r with
  | Ok _ => completed subs evs calls
  | Throw e => aborted prefix subs evs calls e
  end ->
  calls !! k = Some c -> fatal c = false -> subs !! S k = Some x ->
  exists c', calls !! S k = Some c' /\ c_target c' = x.
Proof.
  intros Hshape Hk Hc Hx.
  assert (Hpre : exists post, subs = map c_target calls ++ post /\
                   (S k < length calls \/ post = [])%nat).
  { destruct r as [[]|e].
    - destruct Hshape as (<- & _). exists []. split; [by rewrite app_nil_r|].
      by right.
    - destruct Hshape as (calls0 & cl & err & post & -> & -> & Hall & Hres &
                            Hfatal & _).
      exists post. split; [by rewrite map_app, <- app_assoc|]. left.
      rewrite length_app; cbn.
      destruct (decide (k < length calls0)%nat) as [Hlt|Hge]; [lia|].
      rewrite lookup_app_r in Hk by lia.
      destruct (k - length calls0)%nat as [|n] eqn:Hn; [|done].
      injection Hk as <-. unfold fatal in Hc. rewrite Hres in Hc. congruence. }
  destruct Hpre as (post & -> & Hlen).
  assert (Hlt : (S k < length calls)%nat).
  { destruct Hlen as [Hlt| ->]; [done|].
    rewrite app_nil_r in Hx. apply lookup_lt_Some in Hx.
    by rewrite length_map in Hx. }
  rewrite lookup_app_l in Hx by (by rewrite length_map).
  rewrite list_lookup_fmap in Hx.
  destruct (calls !! S k) as [c'|]; [|done].
  exists c'. split; [done|]. by injection Hx.
Qed.


Lemma completed_targets subs evs calls :
  completed subs evs calls -> map c_target calls = subs.
Proof. by intros (H & _). Qed.

Lemma aborted_fatal prefix subs evs calls e :
  aborted prefix subs evs calls e -> Exists (fun c => fatal c = true) calls.
Proof.
  intros (calls0 & cl & err & post & -> & _ & _ & Hres & Hfatal & _).
  apply Exists_app. right. constructor. unfold fatal. by rewrite Hres.
Qed.

End Consequences.

(** ** The progress indicator *)

Lemma spinning_app active xs ys :
  spinning active (xs ++ ys) = spinning (spinning active xs) ys.
Proof.
  revert active. induction xs as [|ev xs IH]; intros active; [done|].
  destruct ev; cbn; apply IH.
Qed.

Lemma spinning_cleared active evs :
  spinning active (evs ++ [EvClearAll]) = [].
Proof. by rewrite spinning_app. Qed.

(** Without a [clearAll], what was spinning or was started still is. *)
Lemma spinning_kept active evs label :
  EvClearAll ∉ evs ->
  label ∈ active \/ EvSpinner label ∈ evs ->
  label ∈ spinning active evs.
Proof.
  revert active. induction evs as [|ev evs IH]; intros active Hclear Hin.
  - destruct Hin as [Hin|Hin]; [done|]. by apply elem_of_nil in Hin.
  - apply not_elem_of_cons in Hclear as [Hne Hclear].
    assert (Hrest : label ∈ active \/ ev = EvSpinner label \/
                    EvSpinner label ∈ evs).
    { destruct Hin as [Hin|Hin]; [by left|]. right.
      apply elem_of_cons in Hin as [<-|Hin]; [by left|by right]. }
    destruct ev; try done; cbn; apply IH; try done.
    + destruct Hrest as [Hin'|[Heq|Hin']].
      * left. apply elem_of_app. by left.
      * injection Heq as ->. left. apply elem_of_app. right.
        apply list_elem_of_here.
      * by right.
    + destruct Hrest as [?|[?|?]]; [by left|done|by right].
    + destruct Hrest as [?|[?|?]]; [by left|done|by right].
    + destruct Hrest as [?|[?|?]]; [by left|done|by right].
Qed.

(** ** The submission claims *)

Section Submissions.

Context (config : Config) {World : Type}
        (makeRequest_TestResult : Payload -> World -> Res TestResult * World)
        (makeRequest_MonitorDependenciesResponse :
           Payload -> World -> Res MonitorDependenciesResponse * World).

Local Abbreviation test_body :=
  (testDependencies_body config World makeRequest_TestResult).
Local Abbreviation monitor_body_run :=
  (monitorDependencies_body config World
                            makeRequest_MonitorDependenciesResponse).

(** The function is its body run on a fresh frame. *)
Lemma testDependencies_of_body scans st :
  testDependencies config World makeRequest_TestResult scans st =
  ((test_body scans (mkTestFrame [] [], st)).1,
   (test_body scans (mkTestFrame [] [], st)).2.2).
Proof.
  unfold testDependencies, run_frame. by destruct (test_body _ _).
Qed.

Lemma monitorDependencies_of_body scans options st :
  monitorDependencies config World makeRequest_MonitorDependenciesResponse
                      scans options st =
  ((monitor_body_run scans options (mkMonitorFrame [] [], st)).1,
   (monitor_body_run scans options (mkMonitorFrame [] [], st)).2.2).
Proof.
  unfold monitorDependencies, run_frame. by destruct (monitor_body_run _ _ _).
Qed.

(** The shapes, on the projections of a run. *)
Lemma test_run_shape scans st :
  let run := test_body scans (mkTestFrame [] [], st) in
  let evs := events_since st run.2.2 in
  let calls := test_calls evs in
  trace run.2.2 = trace st ++ evs /\
  heap run.2.2 = heap st /\
  t_results run.2.1 = omap response calls /\
  t_errors run.2.1 = omap test_error calls /\
  Forall (fun c => c_payload c =
                   test_payload config (heap st (c_scanResult c))) calls /\
  match run.1 with
  | Ok v =>
      v = (t_results run.2.1, t_errors run.2.1) /\
      completed (submissions scans) evs calls
  | Throw e =>
      aborted "Testing dependencies in " (submissions scans) evs calls e
  end.
Proof.
  destruct (testDependencies_body_shape config makeRequest_TestResult scans st)
    as (r & f & st' & evs & Hrun & Htr & Hrest).
  cbv zeta. rewrite Hrun. cbn [fst snd].
  by rewrite (events_since_app _ _ _ Htr).
Qed.

Lemma monitor_run_shape scans options st :
  let run := monitor_body_run scans options (mkMonitorFrame [] [], st) in
  let evs := events_since st run.2.2 in
  let calls := monitor_calls evs in
  trace run.2.2 = trace st ++ evs /\
  (forall l, heap run.2.2 l =
             filtered_at (map c_scanResult calls) (heap st) l) /\
  m_results run.2.1 = omap monitor_result calls /\
  m_errors run.2.1 = omap monitor_error calls /\
  Forall (fun c => monitor_sent config options (heap st)
                     (c_scanResult c) (c_payload c)) calls /\
  match run.1 with
  | Ok v =>
      v = (m_results run.2.1, m_errors run.2.1) /\
      completed (submissions scans) evs calls
  | Throw e =>
      aborted "Monitoring dependencies in " (submissions scans) evs calls e
  end.
Proof.
  destruct (monitorDependencies_body_shape
              config makeRequest_MonitorDependenciesResponse options scans st)
    as (r & f & st' & evs & Hrun & Htr & Hrest).
  cbv zeta. rewrite Hrun. cbn [fst snd].
  by rewrite (events_since_app _ _ _ Htr).
Qed.

(** C1. In a run of [testDependencies] or [monitorDependencies], when
    a remote call is rejected with a code in [400,500), the function
    throws an error with the message of that rejection; that call is
    the last one made, for the pairs up to it in order; and the
    results and errors recorded are those of the calls before it. *)
Theorem client_error_aborts :
  (forall scans st,
     let run := test_body scans (mkTestFrame [] [], st) in
     let calls := test_calls (events_since st run.2.2) in
     forall k c, calls !! k = Some c -> fatal c = true ->
       exists err,
         c_result c = Throw err /\
         run.1 = Throw (new_Error (exn_message err)) /\
         (testDependencies config World makeRequest_TestResult scans st).1 =
           Throw (new_Error (exn_message err)) /\
         length calls = S k /\
         map c_target calls = take (S k) (submissions scans) /\
         t_results run.2.1 = omap response (take k calls) /\
         t_errors run.2.1 = omap test_error (take k calls)) /\
  (forall scans options st,
     let run := monitor_body_run scans options (mkMonitorFrame [] [], st) in
     let calls := monitor_calls (events_since st run.2.2) in
     forall k c, calls !! k = Some c -> fatal c = true ->
       exists err,
         c_result c = Throw err /\
         run.1 = Throw (new_Error (exn_message err)) /\
         (monitorDependencies config World
            makeRequest_MonitorDependenciesResponse scans options st).1 =
           Throw (new_Error (exn_message err)) /\
         length calls = S k /\
         map c_target calls = take (S k) (submissions scans) /\
         m_results run.2.1 = omap monitor_result (take k calls) /\
         m_errors run.2.1 = omap monitor_error (take k calls)).
Proof.
  split.
  - intros scans st run calls k c Hk Hc.
    destruct (test_run_shape scans st) as (_ & _ & Hres & Herr & _ & Hshape).
    fold run calls in Hres, Herr, Hshape.
    rewrite testDependencies_of_body. fold run. cbn [fst].
    destruct (run.1) as [v|e].
    + destruct Hshape as [_ Hshape].
      pose proof (completed_not_fatal _ _ _ _ _ Hshape Hk). congruence.
    + destruct (aborted_at _ _ _ _ _ _ _ Hshape Hk Hc)
        as (err & Hr & -> & Hlen & Htargets & _).
      exists err. split_and!; try done.
      * rewrite Hres. rewrite <- (take_drop k calls) at 1.
        rewrite omap_app. rewrite (drop_S _ c) by done.
        rewrite drop_ge by lia. cbn. unfold response. rewrite Hr.
        by rewrite app_nil_r.
      * rewrite Herr. rewrite <- (take_drop k calls) at 1.
        rewrite omap_app. rewrite (drop_S _ c) by done.
        rewrite drop_ge by lia. cbn. unfold test_error, soft.
        unfold fatal in Hc. rewrite Hr in *. rewrite Hc. cbn.
        by rewrite app_nil_r.
  - intros scans options st run calls k c Hk Hc.
    destruct (monitor_run_shape scans options st)
      as (_ & _ & Hres & Herr & _ & Hshape).
    fold run calls in Hres, Herr, Hshape.
    rewrite monitorDependencies_of_body. fold run. cbn [fst].
    destruct (run.1) as [v|e].
    + destruct Hshape as [_ Hshape].
      pose proof (completed_not_fatal _ _ _ _ _ Hshape Hk). congruence.
    + destruct (aborted_at _ _ _ _ _ _ _ Hshape Hk Hc)
        as (err & Hr & -> & Hlen & Htargets & _).
      exists err. split_and!; try done.
      * rewrite Hres. rewrite <- (take_drop k calls) at 1.
        rewrite omap_app. rewrite (drop_S _ c) by done.
        rewrite drop_ge by lia. cbn. unfold monitor_result. rewrite Hr.
        by rewrite app_nil_r.
      * rewrite Herr. rewrite <- (take_drop k calls) at 1.
        rewrite omap_app. rewrite (drop_S _ c) by done.
        rewrite drop_ge by lia. cbn. unfold monitor_error, soft.
        unfold fatal in Hc. rewrite Hr in *. rewrite Hc. cbn.
        by rewrite app_nil_r.
Qed.

Lemma soft_not_fatal {R} (c : Call R) : soft c = true -> fatal c = false.
Proof.
  unfold soft, fatal. destruct (c_result c); [done|].
  by destruct (client_error e).
Qed.

Lemma shape_outcome {R V} prefix subs evs (calls : list (Call R))
    (r : Res V) (P : V -> Prop) :
  match r with
  | Ok v => P v /\ completed subs evs calls
  | Throw e => aborted prefix subs evs calls e
  end ->
  match outcome r with
  | Ok _ => completed subs evs calls
  | Throw e => aborted prefix subs evs calls e
  end.
Proof. destruct r; [by intros [_ ?]|done]. Qed.

(** C2. In a run of [testDependencies] or [monitorDependencies], a
    call rejected with anything but a code in [400,500) leaves one
    error entry, which names the path (and, for monitor, holds the
    scan result) of that call, and the next pair is submitted. The
    results are the responses of the calls that succeeded, in the
    order of the calls, and the errors the entries of the calls that
    failed; with no client error in the run, every pair is submitted
    and these two lists are returned. *)
Theorem soft_failure_continues :
  (forall scans st,
     let run := test_body scans (mkTestFrame [] [], st) in
     let calls := test_calls (events_since st run.2.2) in
     t_results run.2.1 = omap response calls /\
     t_errors run.2.1 = omap test_error calls /\
     (forall k c, calls !! k = Some c -> soft c = true ->
        test_error c =
          Some ("Could not test dependencies in " +:+ c_path c) /\
        forall x, submissions scans !! S k = Some x ->
          exists c', calls !! S k = Some c' /\ c_target c' = x) /\
     (Forall (fun c => fatal c = false) calls ->
        map c_target calls = submissions scans /\
        (testDependencies config World makeRequest_TestResult scans st).1 =
          Ok (omap response calls, omap test_error calls))) /\
  (forall scans options st,
     let run := monitor_body_run scans options (mkMonitorFrame [] [], st) in
     let calls := monitor_calls (events_since st run.2.2) in
     m_results run.2.1 = omap monitor_result calls /\
     m_errors run.2.1 = omap monitor_error calls /\
     (forall k c, calls !! k = Some c -> soft c = true ->
        monitor_error c =
          Some (mkMonitorError
                  ("Could not monitor dependencies in " +:+ c_path c)
                  (c_path c) (c_scanResult c)) /\
        forall x, submissions scans !! S k = Some x ->
          exists c', calls !! S k = Some c' /\ c_target c' = x) /\
     (Forall (fun c => fatal c = false) calls ->
        map c_target calls = submissions scans /\
        (monitorDependencies config World
           makeRequest_MonitorDependenciesResponse scans options st).1 =
          Ok (omap monitor_result calls, omap monitor_error calls))).
Proof.
  split.
  - intros scans st run calls.
    destruct (test_run_shape scans st) as (_ & _ & Hres & Herr & _ & Hshape).
    fold run calls in Hres, Herr, Hshape.
    split_and!; try done.
    + intros k c Hk Hc. split; [unfold test_error; by rewrite Hc|].
      intros x Hx. apply shape_outcome in Hshape.
      eapply shape_continues; eauto using soft_not_fatal.
    + intros Hall. rewrite testDependencies_of_body. fold run. cbn [fst].
      destruct (run.1) as [v|e].
      * destruct Hshape as [-> Hshape].
        split; [by eapply completed_targets|]. by rewrite Hres, Herr.
      * apply aborted_fatal, Exists_exists in Hshape as (c & Hin & Hc).
        rewrite Forall_forall in Hall. apply Hall in Hin. congruence.
  - intros scans options st run calls.
    destruct (monitor_run_shape scans options st)
      as (_ & _ & Hres & Herr & _ & Hshape).
    fold run calls in Hres, Herr, Hshape.
    split_and!; try done.
    + intros k c Hk Hc. split; [unfold monitor_error; by rewrite Hc|].
      intros x Hx. apply shape_outcome in Hshape.
      eapply shape_continues; eauto using soft_not_fatal.
    + intros Hall. rewrite monitorDependencies_of_body. fold run. cbn [fst].
      destruct (run.1) as [v|e].
      * destruct Hshape as [-> Hshape].
        split; [by eapply completed_targets|]. by rewrite Hres, Herr.
      * apply aborted_fatal, Exists_exists in Hshape as (c & Hin & Hc).
        rewrite Forall_forall in Hall. apply Hall in Hin. congruence.
Qed.

Lemma aborted_spinning {R} prefix subs evs (calls : list (Call R)) e tr :
  aborted prefix subs evs calls e ->
  (EvClearAll ∉ evs) /\
  exists c, list.last calls = Some c /\ fatal c = true /\
            prefix +:+ c_path c ∈ spinning [] (tr ++ evs).
Proof.
  intros (calls0 & cl & err & post & -> & _ & _ & Hres & Hfatal & _ &
            Hclear & Hspin).
  split; [done|]. exists cl. split_and!.
  - apply last_snoc.
  - unfold fatal. by rewrite Hres.
  - rewrite spinning_app. apply spinning_kept; [done|]. by right.
Qed.

(** C7, amended. A run of [testDependencies] or [monitorDependencies]
    that returns has cleared the progress indicator: nothing is
    spinning afterwards. A run that throws on a client error has not
    called [clearAll], and the indicator started for the path of the
    rejected call is still spinning. *)
Theorem indicator_cleared_on_return :
  (forall scans st,
     let run := test_body scans (mkTestFrame [] [], st) in
     let evs := events_since st run.2.2 in
     match run.1 with
     | Ok _ => spinning [] (trace run.2.2) = []
     | Throw _ =>
         (EvClearAll ∉ evs) /\
         exists c, list.last (test_calls evs) = Some c /\ fatal c = true /\
           "Testing dependencies in " +:+ c_path c
             ∈ spinning [] (trace run.2.2)
     end) /\
  (forall scans options st,
     let run := monitor_body_run scans options (mkMonitorFrame [] [], st) in
     let evs := events_since st run.2.2 in
     match run.1 with
     | Ok _ => spinning [] (trace run.2.2) = []
     | Throw _ =>
         (EvClearAll ∉ evs) /\
         exists c, list.last (monitor_calls evs) = Some c /\ fatal c = true /\
           "Monitoring dependencies in " +:+ c_path c
             ∈ spinning [] (trace run.2.2)
     end).
Proof.
  split.
  - intros scans st run evs.
    destruct (test_run_shape scans st) as (Htr & _ & _ & _ & _ & Hshape).
    fold run evs in Htr, Hshape. rewrite Htr.
    destruct (run.1) as [v|e].
    + destruct Hshape as (_ & _ & _ & evs0 & -> & _).
      by rewrite app_assoc, spinning_cleared.
    + by eapply aborted_spinning.
  - intros scans options st run evs.
    destruct (monitor_run_shape scans options st)
      as (Htr & _ & _ & _ & _ & Hshape).
    fold run evs in Htr, Hshape. rewrite Htr.
    destruct (run.1) as [v|e].
    + destruct Hshape as (_ & _ & _ & evs0 & -> & _).
      by rewrite app_assoc, spinning_cleared.
    + by eapply aborted_spinning.
Qed.

(** C3. Every request [monitorDependencies] sends carries the scan
    result it was made for with its facts filtered: no fact of the
    type [imageOsReleasePrettyName] is left, the facts of every other
    type are those of the scan result as the store held it when the
    run began, unchanged and in their order, and the other fields are
    the same. *)
Theorem monitor_request_facts scans options st :
  let run := monitor_body_run scans options (mkMonitorFrame [] [], st) in
  let calls := monitor_calls (events_since st run.2.2) in
  forall c, c ∈ calls ->
    let given := heap st (c_scanResult c) in
    exists sent projectName pol method,
      p_body (c_payload c) = MonitorBody sent projectName pol method /\
      Forall (fun fact => fact_type fact <> "imageOsReleasePrettyName")
             (facts sent) /\
      facts sent =
        filter (fun fact => fact_type fact <> "imageOsReleasePrettyName")
               (facts given) /\
      identity sent = identity given /\ name sent = name given /\
      policy sent = policy given /\
      target sent = target given.
Proof.
  intros run calls c Hin given.
  destruct (monitor_run_shape scans options st)
    as (_ & _ & _ & _ & Hsent & _).
  fold run calls in Hsent.
  rewrite Forall_forall in Hsent. apply list_elem_of_In, Hsent in Hin.
  unfold monitor_sent in Hin. rewrite Hin. cbn. fold given.
  eexists _, _, _, _. split; [done|]. cbn.
  split_and!; try done.
  apply Forall_forall. intros fact Hfact.
  apply list_elem_of_In in Hfact.
  unfold filter_facts in Hfact. by apply list_elem_of_filter in Hfact as [? _].
Qed.


End Submissions.

(** ** Objects used as maps *)

Section Objects.

Context {V : Type}.
Implicit Types (ps : list (string * V)) (o : JsObject V).

Lemma assign_keys_old k v ps :
  k ∈ map fst ps -> map fst (assign k v ps) = map fst ps.
Proof.
  induction ps as [|[k' v'] ps IH]; intros Hin; cbn.
  - by apply elem_of_nil in Hin.
  - destruct (decide (k' = k)) as [->|Hne]; [done|]. cbn. f_equal.
    apply IH. cbn in Hin. apply elem_of_cons in Hin as [->|Hin]; done.
Qed.

Lemma assign_keys_new k v ps :
  k ∉ map fst ps -> map fst (assign k v ps) = map fst ps ++ [k].
Proof.
  induction ps as [|[k' v'] ps IH]; intros Hout; cbn; [done|].
  cbn in Hout. apply not_elem_of_cons in Hout as [Hne Hout].
  rewrite decide_False by done. cbn. f_equal. by apply IH.
Qed.

Lemma length_insert_by_index n e (l : list (N * (string * V))) :
  length (insert_by_index n e l) = S (length l).
Proof.
  induction l as [|[m e'] l IH]; cbn; [done|].
  destruct (n <=? m)%N; cbn; [done|]. by rewrite IH.
Qed.

(** [Object.entries] lists every own property once. *)
Lemma length_Object_entries o : length (Object_entries o) = length (own o).
Proof.
  unfold Object_entries. rewrite length_app, length_map.
  induction (own o) as [|e ps IH]; cbn; [done|].
  destruct (array_index e.1); cbn.
  - rewrite length_insert_by_index. lia.
  - lia.
Qed.

Lemma length_Object_keys o : length (Object_keys o) = length (own o).
Proof. unfold Object_keys. by rewrite length_map, length_Object_entries. Qed.

(** The own keys after an assignment. *)
Lemma obj_set_keys o k v :
  NoDup (map fst (own o)) ->
  NoDup (map fst (own (obj_set o k v))) /\
  forall k', k' ∈ map fst (own (obj_set o k v)) <->
             k' ∈ map fst (own o) \/ (k' = k /\ k <> "__proto__").
Proof.
  intros Hnd. unfold obj_set.
  destruct (decide (k = "__proto__")) as [Hproto|Hproto]; cbn.
  - split; [done|]. intros k'. intuition congruence.
  - destruct (decide (k ∈ map fst (own o))) as [Hin|Hout].
    + rewrite assign_keys_old by done. split; [done|].
      intros k'. split; [by left|]. intros [?|[-> _]]; done.
    + rewrite assign_keys_new by done. split.
      * apply list.NoDup_app. split_and!; [done| |apply NoDup_singleton].
        intros x Hx ->%list_elem_of_singleton. done.
      * intros k'. rewrite elem_of_app, list_elem_of_singleton. tauto.
Qed.

End Objects.

(** ** The scan loops *)

Section Scanning.

Context {World : Type}
        (plugin_scan :
           Ecosystem -> Options -> World -> Heap ->
           Res PluginResponse * (World * Heap)).
Variables (ecosystem : Ecosystem) (options : Options).

Local Abbreviation step := (scan_step World plugin_scan ecosystem).

(** The body of either loop: [monitorEcosystem] starts the progress
    indicator first. *)
Definition scan_body (announce : bool) (path : string)
    : M (ScanFrame * State World) unit :=
  if announce
  then (global (spinner ("Analyzing dependencies in " +:+ path)) ;;;
        step path)%js
  else step path.

Definition scanned (path : string)
    (call : Ecosystem * Options * Res PluginResponse) : Prop :=
  call.1 = (ecosystem, set_path path options) /\ yielded call.

Definition scan_inv (st0 : State World) (done : list string)
    (s : ScanFrame * State World) : Prop :=
  exists evs,
    trace s.2 = trace st0 ++ evs /\
    Forall2 scanned done (scan_calls evs) /\
    (forall p, set_path p (f_options s.1) = set_path p options) /\
    NoDup (map fst (own (scanResultsByPath s.1))) /\
    forall k, k ∈ map fst (own (scanResultsByPath s.1)) <->
              k ∈ done /\ k <> "__proto__".

Definition scan_abort (st0 : State World) (done : list string) (x : string)
    (e : Exn) (s : ScanFrame * State World) : Prop :=
  exists evs calls0,
    trace s.2 = trace st0 ++ evs /\
    scan_calls evs = calls0 ++ [(ecosystem, set_path x options, Throw e)] /\
    Forall2 scanned done calls0.

Lemma scan_step_preserves st0 announce done x s :
  scan_inv st0 done s ->
  match scan_body announce x s with
  | (Ok _, s') => scan_inv st0 (done ++ [x]) s'
  | (Throw e, s') => scan_abort st0 done x e s'
  end.
Proof.
  intros (evs & Htr & Hcalls & Hopts & Hnd & Hkeys).
  destruct s as [f st]; cbn [fst snd] in *.
  set (announced := if announce
                    then [EvSpinner ("Analyzing dependencies in " +:+ x)]
                    else []).
  assert (Hsame : scan_calls (evs ++ announced) = scan_calls evs).
  { unfold scan_calls. rewrite omap_app. subst announced.
    destruct announce; cbn; by rewrite app_nil_r. }
  assert (Hrun : scan_body announce x (f, st) =
                 step x (f, mkState (world st) (heap st)
                                    (trace st ++ announced))).
  { subst announced. destruct announce; cbn; [done|].
    rewrite app_nil_r. by destruct st. }
  rewrite Hrun. clear Hrun.
  unfold scan_step, bind, local, global, modify, gets, scan; cbn.
  rewrite Hopts.
  destruct (plugin_scan ecosystem (set_path x options) (world st) (heap st))
    as [[resp|err] [w h]]; cbn.
  - exists (evs ++ announced ++
            [EvScan ecosystem (set_path x options) (Ok resp)]).
    split_and!.
    + by rewrite Htr, <- !app_assoc.
    + unfold scan_calls in *. rewrite app_assoc, omap_app, Hsame. cbn.
      apply Forall2_app; [done|]. constructor; [|constructor].
      split; [done|]. by eexists.
    + done.
    + by apply obj_set_keys.
    + intros k. destruct (obj_set_keys (scanResultsByPath f) x
                            (scanResults resp) Hnd) as [_ ->].
      rewrite Hkeys, elem_of_app, list_elem_of_singleton.
      split; [intros [[? ?]|[-> ?]]|intros [[?| ->] ?]]; tauto.
  - exists (evs ++ announced ++
            [EvScan ecosystem (set_path x options) (Throw err)]),
      (scan_calls evs).
    split_and!; try done.
    + by rewrite Htr, <- !app_assoc.
    + unfold scan_calls in *. by rewrite app_assoc, omap_app, Hsame.
Qed.

(** A scan loop from an empty map. *)
Lemma scan_loop_shape announce paths st :
  let run := for_of paths (scan_body announce)
               (mkScanFrame empty_obj options, st) in
  let calls := scan_calls (events_since st run.2.2) in
  match run.1 with
  | Ok _ =>
      Forall2 scanned paths calls /\
      length (Object_keys (scanResultsByPath run.2.1)) =
        length (remove_dups (filter (fun p => p <> "__proto__") paths))
  | Throw e => Exists (fun call => ~ yielded call) calls
  end.
Proof.
  assert (Hinit : scan_inv st [] (mkScanFrame empty_obj options, st)).
  { exists []. rewrite app_nil_r. split_and!; try done; cbn.
    - constructor.
    - intros k. split; [by intros ?%elem_of_nil|by intros [?%elem_of_nil _]]. }
  pose proof (for_of_inv _ _ _
                (fun done x s => scan_step_preserves st announce done x s)
                paths [] _ Hinit) as Hloop.
  cbv zeta.
  destruct (for_of paths _ _) as [[[]|e] [f st']]; cbn [fst snd] in *.
  - destruct Hloop as (evs & Htr & Hcalls & _ & Hnd & Hkeys).
    cbn [fst snd] in *. rewrite (events_since_app _ _ _ Htr).
    split; [done|].
    assert (Hperm : map fst (own (scanResultsByPath f)) ≡ₚ
                    remove_dups (filter (fun p => p <> "__proto__") paths)).
    { apply list.NoDup_Permutation; [done|apply NoDup_remove_dups|].
      intros k. rewrite Hkeys, elem_of_remove_dups, list_elem_of_filter.
      tauto. }
    rewrite length_Object_keys, <- (length_map fst).
    by apply Permutation_length.
  - destruct Hloop as (pre & x & post & -> & evs & calls0 & Htr & Hcalls & _).
    cbn [fst snd] in *. rewrite (events_since_app _ _ _ Htr), Hcalls.
    apply Exists_app. right. constructor.
    intros [resp Hresp]. done.
Qed.

Lemma scanned_calls paths calls :
  Forall2 scanned paths calls ->
  map fst calls = map (fun path => (ecosystem, set_path path options)) paths /\
  Forall yielded calls.
Proof.
  induction 1 as [|path call paths calls [Hcall Hy] _ [IH1 IH2]]; [done|].
  cbn. rewrite Hcall, IH1. split; [done|]. by constructor.
Qed.

Lemma distinct_paths_keys (paths : list string) :
  NoDup paths -> "__proto__" ∉ paths ->
  length (remove_dups (filter (fun p => p <> "__proto__") paths)) =
  length paths.
Proof.
  intros Hnd Hproto. apply Permutation_length.
  apply list.NoDup_Permutation; [apply NoDup_remove_dups|done|].
  intros k. rewrite elem_of_remove_dups, list_elem_of_filter.
  split; [tauto|]. intros Hk. split; [|done]. by intros ->.
Qed.

Lemma scan_loop_claim announce paths st :
  let run := for_of paths (scan_body announce)
               (mkScanFrame empty_obj options, st) in
  let calls := scan_calls (events_since st run.2.2) in
  Forall yielded calls ->
  run.1 = Ok tt /\
  map fst calls = map (fun path => (ecosystem, set_path path options)) paths /\
  length calls = length paths /\
  length (Object_keys (scanResultsByPath run.2.1)) =
    length (remove_dups (filter (fun p => p <> "__proto__") paths)) /\
  (NoDup paths -> "__proto__" ∉ paths ->
   length (Object_keys (scanResultsByPath run.2.1)) = length paths).
Proof.
  intros run calls Hall.
  pose proof (scan_loop_shape announce paths st) as Hshape.
  cbv zeta in Hshape. fold run calls in Hshape.
  destruct (run.1) as [[]|e].
  - destruct Hshape as [Hcalls Hkeys].
    destruct (scanned_calls _ _ Hcalls) as [Hmap _].
    split_and!; try done.
    + by rewrite <- (length_map fst), Hmap, length_map.
    + intros Hnd Hproto. by rewrite Hkeys, distinct_paths_keys.
  - apply Exists_exists in Hshape as (call & Hin & Hno).
    rewrite Forall_forall in Hall. by apply Hall in Hin.
Qed.

(** C5, amended. When every scan the plugin is asked for yields scan
    results, the scan loop of [testEcosystem] and that of
    [monitorEcosystem] call the plugin once per path of the list, in
    the order of the list, each time with [options.path] set to that
    path; the map of scan results by path has one key per distinct
    path (none for the path [__proto__]), which makes as many keys as
    paths when the paths are distinct. *)
Theorem scan_once_per_path paths st :
  (let run := testEcosystem_scan World plugin_scan ecosystem paths
                (mkScanFrame empty_obj options, st) in
   let calls := scan_calls (events_since st run.2.2) in
   Forall yielded calls ->
   run.1 = Ok tt /\
   map fst calls =
     map (fun path => (ecosystem, set_path path options)) paths /\
   length calls = length paths /\
   length (Object_keys (scanResultsByPath run.2.1)) =
     length (remove_dups (filter (fun p => p <> "__proto__") paths)) /\
   (NoDup paths -> "__proto__" ∉ paths ->
    length (Object_keys (scanResultsByPath run.2.1)) = length paths)) /\
  (let run := monitorEcosystem_scan World plugin_scan ecosystem paths
                (mkScanFrame empty_obj options, st) in
   let calls := scan_calls (events_since st run.2.2) in
   Forall yielded calls ->
   run.1 = Ok tt /\
   map fst calls =
     map (fun path => (ecosystem, set_path path options)) paths /\
   length calls = length paths /\
   length (Object_keys (scanResultsByPath run.2.1)) =
     length (remove_dups (filter (fun p => p <> "__proto__") paths)) /\
   (NoDup paths -> "__proto__" ∉ paths ->
    length (Object_keys (scanResultsByPath run.2.1)) = length paths)).
Proof.
  split.
  - exact (scan_loop_claim false paths st).
  - exact (scan_loop_claim true paths st).
Qed.

End Scanning.

(** * The claims on the scripted world *)

Section Scripted.

Import Script.

Local Abbreviation requests_made run w :=
  (events_since (start w) run.2.2).

(** C1 at [test_refused]: the second of two test requests is answered
    403, the first result stays in the frame and the function throws
    [Forbidden]. *)
Lemma client_error_aborts_witness :
  test_calls (requests_made (test_run two_paths test_refused) test_refused)
    !! 1%nat = Some refused_call /\
  fatal refused_call = true /\
  (testDependencies config World makeRequest_TestResult two_paths
                    (start test_refused)).1 = Throw (new_Error "Forbidden") /\
  t_results (test_run two_paths test_refused).2.1 = [clean] /\
  t_errors (test_run two_paths test_refused).2.1 = [].
Proof.
  assert (H1 : test_calls (requests_made (test_run two_paths test_refused)
                                         test_refused)
                 !! 1%nat = Some refused_call) by reflexivity.
  assert (H2 : fatal refused_call = true) by reflexivity.
  destruct (proj1 (client_error_aborts config makeRequest_TestResult
                     makeRequest_MonitorDependenciesResponse)
              two_paths (start test_refused) 1%nat refused_call H1 H2)
    as (err & Herr & _ & Hthrow & _ & _ & Hresults & Herrors).
  injection Herr as <-.
  split; [exact H1|]. split; [exact H2|]. split; [exact Hthrow|].
  split; [exact Hresults|exact Herrors].
Defined.

(** C2 at [test_unavailable]: the first of two test requests is
    answered 503, one error is recorded for its path and the second
    request is made. *)
Lemma soft_failure_continues_witness :
  test_calls (requests_made (test_run two_paths test_unavailable)
                            test_unavailable)
    !! 0%nat = Some failed_call /\
  soft failed_call = true /\
  submissions two_paths !! 1%nat = Some ("./b", 1%nat) /\
  test_error failed_call = Some "Could not test dependencies in ./a" /\
  exists c',
    test_calls (requests_made (test_run two_paths test_unavailable)
                              test_unavailable) !! 1%nat = Some c' /\
    c_target c' = ("./b", 1%nat).
Proof.
  assert (H1 : test_calls (requests_made (test_run two_paths test_unavailable)
                                         test_unavailable)
                 !! 0%nat = Some failed_call) by reflexivity.
  assert (H2 : soft failed_call = true) by reflexivity.
  assert (H3 : submissions two_paths !! 1%nat = Some ("./b", 1%nat))
    by reflexivity.
  destruct (proj1 (soft_failure_continues config makeRequest_TestResult
                     makeRequest_MonitorDependenciesResponse)
              two_paths (start test_unavailable))
    as (_ & _ & Hsoft & _).
  destruct (Hsoft 0%nat failed_call H1 H2) as [Herror Hnext].
  split; [exact H1|]. split; [exact H2|]. split; [exact H3|].
  split; [exact Herror|]. exact (Hnext _ H3).
Defined.

(** C3 at [monitor_unavailable]: the second request carries the scan
    result without its OS release fact. *)
Lemma monitor_request_facts_witness :
  second_monitor_call ∈
    monitor_calls (requests_made (monitor_run two_paths monitor_unavailable)
                                 monitor_unavailable) /\
  exists sent projectName pol method,
    p_body (c_payload second_monitor_call) =
      MonitorBody sent projectName pol method /\
    facts sent = [dep_graph; image_id].
Proof.
  assert (H1 : second_monitor_call ∈
            monitor_calls (requests_made
                             (monitor_run two_paths monitor_unavailable)
                             monitor_unavailable)).
  { apply list_elem_of_further, list_elem_of_here. }
  destruct (monitor_request_facts config
              makeRequest_MonitorDependenciesResponse two_paths options
              (start monitor_unavailable) second_monitor_call H1)
    as (sent & projectName & pol & method & Hbody & _ & Hfacts & _).
  split; [exact H1|].
  exists sent, projectName, pol, method. split; [exact Hbody|exact Hfacts].
Defined.

(** C5, as stated, at the paths [./a] and [./a]: two paths, two scans,
    one key. *)
Lemma same_path_twice_one_key :
  length ["./a"; "./a"] = 2%nat /\
  (test_scan ["./a"; "./a"] scans_fine).1 = Ok tt /\
  length (scan_calls (requests_made (test_scan ["./a"; "./a"] scans_fine)
                                    scans_fine)) = 2%nat /\
  Object_keys (scanResultsByPath (test_scan ["./a"; "./a"] scans_fine).2.1)
    = ["./a"].
Proof. by split_and!. Qed.

(** C5, amended, at the paths [./a] and [./b]. *)
Lemma scan_once_per_path_witness :
  Forall yielded
    (scan_calls (requests_made (test_scan ["./a"; "./b"] scans_fine)
                               scans_fine)) /\
  NoDup ["./a"; "./b"] /\
  length (scan_calls (requests_made (test_scan ["./a"; "./b"] scans_fine)
                                    scans_fine)) = 2%nat /\
  length (Object_keys
            (scanResultsByPath (test_scan ["./a"; "./b"] scans_fine).2.1))
    = 2%nat.
Proof.
  assert (H1 : Forall yielded
            (scan_calls (requests_made (test_scan ["./a"; "./b"] scans_fine)
                                       scans_fine))).
  { repeat constructor; by eexists. }
  assert (H2 : NoDup ["./a"; "./b"]).
  { apply (bool_decide_unpack _). by vm_compute. }
  assert (H3 : "__proto__" ∉ ["./a"; "./b"]).
  { apply (bool_decide_unpack _). by vm_compute. }
  destruct (proj1 (scan_once_per_path plugin_scan docker options
                     ["./a"; "./b"] (start scans_fine)) H1)
    as (_ & _ & Hcalls & _ & Hkeys).
  split; [exact H1|]. split; [exact H2|]. split; [exact Hcalls|].
  exact (Hkeys H2 H3).
Defined.

(** C7, as stated, at [test_refused]: the function throws without a
    call to [clearAll], and both indicators are still spinning. *)
Lemma indicator_left_spinning :
  (testDependencies config World makeRequest_TestResult two_paths
                    (start test_refused)).1 = Throw (new_Error "Forbidden") /\
  cleared
    (trace (testDependencies config World makeRequest_TestResult two_paths
                             (start test_refused)).2) = 0%nat /\
  spinning []
    (trace (testDependencies config World makeRequest_TestResult two_paths
                             (start test_refused)).2)
    = ["Testing dependencies in ./a"; "Testing dependencies in ./b"].
Proof. by split_and!. Qed.


(** C4 at the options with [source], [container] and [isDockerUser]
    all set. *)
Lemma getEcosystem_selection_witness :
  is_set (o_source (mkOptions "" (Some true) (Some true) (Some true) None None)) /\
  getEcosystem (mkOptions "" (Some true) (Some true) (Some true) None None)
    = Some cpp.
Proof.
  assert (H1 : is_set (o_source (mkOptions "" (Some true) (Some true)
                                           (Some true) None None)))
    by reflexivity.
  split; [exact H1|].
  exact (proj1 (getEcosystem_selection _) H1).
Defined.

(** C8 with no ['project-name'] option and a configured name. *)
Lemma generateMonitorDependenciesRequest_fields_witness :
  ~ is_set (project_name options) /\
  is_set (PROJECT_NAME (mkConfig "" (Some "shop") "" false)) /\
  q_projectName
    (generateMonitorDependenciesRequest
       (mkConfig "" (Some "shop") "" false) 0%nat options) = Some "shop".
Proof.
  assert (H1 : ~ is_set (project_name options)) by (intros H; discriminate H).
  assert (H2 : is_set (PROJECT_NAME (mkConfig "" (Some "shop") "" false)))
    by reflexivity.
  split; [exact H1|]. split; [exact H2|].
  exact (proj1 (proj2 (proj2 (proj2
           (generateMonitorDependenciesRequest_fields
              (mkConfig "" (Some "shop") "" false) 0%nat options)))) H1 H2).
Defined.

(** C6, amended, with one monitor result, whose calls return, and one
    monitor error: the formatter throws the report of both. *)
Lemma getFormattedMonitorOutput_outcome_witness :
  texts getExtraProjectCount formatMonitorOutput store options
        [monitored_a] [Ok None] =
  (["Monitoring ./a (alpine) as apk"], None, []) /\
  Exists (fun res => ok res = false)
         ([] ++ zip_with success_entry ["Monitoring ./a (alpine) as apk"]
                         [monitored_a] ++
          map (failure_entry MonitorError) [failed_b]) /\
  (format_run [monitored_a] [failed_b] [Ok None]).1 =
  Throw (new_Error
           ("Monitoring ./a (alpine) as apk" +:+ LF +:+ SEPARATOR +:+
            LF +:+ "Monitoring ./b..." +:+ LF +:+ LF +:+
            "Could not monitor dependencies in ./b")).
Proof.
  assert (H0 : texts getExtraProjectCount formatMonitorOutput store options
                     [monitored_a] [Ok None] =
               (["Monitoring ./a (alpine) as apk"], None, []))
    by reflexivity.
  assert (H1 : Exists (fun res => ok res = false)
            ([] ++ zip_with success_entry ["Monitoring ./a (alpine) as apk"]
                            [monitored_a] ++
             map (failure_entry MonitorError) [failed_b])).
  { apply Exists_cons_tl, Exists_cons_hd. reflexivity. }
  split; [exact H0|]. split; [exact H1|].
  pose proof (getFormattedMonitorOutput_outcome
                getExtraProjectCount formatMonitorOutput MonitorError
                plain plain store [monitored_a] [failed_b] options []
                [Ok None]) as H.
  cbv zeta in H. destruct H as [H _].
  exact (proj2 (proj2 (H _ _ H0)) H1).
Defined.

(** C6 as stated fails when a count of extra projects is rejected:
    with two monitor results and no monitor error, the rejection of
    the second count leaves an array whose only entry is a success,
    and the formatter raises what the collaborator threw, which is no
    report, instead of returning. *)
Lemma rejected_count_raises :
  (format_run [monitored_a; monitored_b] [] [Ok None; Throw type_error]).2.1 =
  [GoodResult "Monitoring ./a (alpine) as apk" "./a" (Some "p0")] /\
  Forall (fun res => ok res = true)
    (format_run [monitored_a; monitored_b] []
                [Ok None; Throw type_error]).2.1 /\
  (format_run [monitored_a; monitored_b] [] [Ok None; Throw type_error]).1 =
  Throw type_error /\
  ~ (exists outputString,
       (format_run [monitored_a; monitored_b] []
                   [Ok None; Throw type_error]).1 = Ok outputString).
Proof.
  split_and!.
  - reflexivity.
  - apply list.Forall_cons. split; [reflexivity|constructor].
  - reflexivity.
  - intros [outputString H]. discriminate H.
Qed.

(** C10 as stated fails when the count of extra projects is rejected:
    with one monitor result and one monitor error the array gets
    neither the success entry nor the failure entry. *)
Lemma rejected_count_appends_nothing :
  (format_run [monitored_a] [failed_b] [Throw type_error]).2.1 = [] /\
  (format_run [monitored_a] [failed_b] [Throw type_error]).1 =
  Throw type_error.
Proof. split; reflexivity. Qed.


End Scripted.

(** * Further properties of the orchestration *)

(** ** Outcomes of the submission loops *)

(** The labels the progress indicator was started with. *)
Definition started (tr : list Event) : list string :=
  omap (fun ev => match ev with
                  | EvSpinner label => Some label
                  | _ => None
                  end) tr.

(** The call was answered with a response. *)
Definition answered {R} (c : Call R) : Prop :=
  exists r, c_result c = Ok r.

Section Outcomes.

Context {R A B : Type}.
Variables (result_of : Call R -> option A) (error_of : Call R -> option B).

(** A call that met no client error leaves a result or an error, never
    both; one that met a client error leaves neither. *)
Hypothesis one_outcome : forall c,
  match c_result c with
  | Ok _ => is_Some (result_of c) /\ error_of c = None
  | Throw e =>
      result_of c = None /\
      if client_error e then error_of c = None else is_Some (error_of c)
  end.

Lemma outcomes_count calls :
  Forall (fun c => fatal c = false) calls ->
  (length (omap result_of calls) + length (omap error_of calls) =
   length calls)%nat.
Proof.
  induction 1 as [|c calls Hc _ IH]; [done|].
  pose proof (one_outcome c) as Hone. unfold fatal in Hc.
  cbn. destruct (c_result c) as [r|e].
  - destruct Hone as [[a ->] ->]. cbn. lia.
  - destruct Hone as [-> Herr]. rewrite Hc in Herr.
    destruct Herr as [b ->]. cbn. lia.
Qed.

Lemma outcomes_completed subs evs calls :
  completed subs evs calls ->
  (length (omap result_of calls) + length (omap error_of calls) =
   length subs)%nat.
Proof.
  intros (<- & Hall & _). rewrite length_map. by apply outcomes_count.
Qed.

Lemma outcomes_aborted prefix subs evs calls e :
  aborted prefix subs evs calls e ->
  (length (omap result_of calls) + length (omap error_of calls) <
   length subs)%nat.
Proof.
  intros (calls0 & cl & err & post & -> & -> & Hall & Hres & Hfatal & _).
  rewrite !omap_app, !length_app, length_map. cbn.
  pose proof (outcomes_count calls0 Hall) as Hcount.
  pose proof (one_outcome cl) as Hone. rewrite Hres, Hfatal in Hone.
  destruct Hone as [-> ->]. cbn. lia.
Qed.

(** Without an error among the calls, every call was answered. *)
Lemma outcomes_answered calls :
  omap error_of calls = [] -> Forall (fun c => fatal c = false) calls ->
  Forall answered calls.
Proof.
  intros Hnone Hall. induction Hall as [|c calls Hc _ IH]; [done|].
  pose proof (one_outcome c) as Hone. unfold fatal in Hc.
  cbn in Hnone. destruct (c_result c) as [r|e] eqn:Hr.
  - destruct Hone as [_ Herr]. rewrite Herr in Hnone.
    constructor; [by exists r|by apply IH].
  - destruct Hone as [_ Herr]. rewrite Hc in Herr.
    destruct Herr as [b Hb]. by rewrite Hb in Hnone.
Qed.

Lemma answered_no_error calls :
  Forall answered calls -> omap error_of calls = [].
Proof.
  induction 1 as [|c calls [r Hr] _ IH]; [done|].
  pose proof (one_outcome c) as Hone. rewrite Hr in Hone.
  destruct Hone as [_ Herr]. cbn. by rewrite Herr.
Qed.

End Outcomes.

Lemma test_one_outcome (c : Call TestResult) :
  match c_result c with
  | Ok _ => is_Some (response c) /\ test_error c = None
  | Throw e =>
      response c = None /\
      if client_error e then test_error c = None else is_Some (test_error c)
  end.
Proof.
  unfold response, test_error, soft. destruct (c_result c) as [r|e].
  - split; [by eexists|done].
  - split; [done|]. destruct (client_error e); cbn; [done|by eexists].
Qed.

Lemma monitor_one_outcome (c : Call MonitorDependenciesResponse) :
  match c_result c with
  | Ok _ => is_Some (monitor_result c) /\ monitor_error c = None
  | Throw e =>
      monitor_result c = None /\
      if client_error e then monitor_error c = None
      else is_Some (monitor_error c)
  end.
Proof.
  unfold monitor_result, monitor_error, soft. destruct (c_result c) as [r|e].
  - split; [by eexists|done].
  - split; [done|]. destruct (client_error e); cbn; [done|by eexists].
Qed.

Lemma for_of_returns {S A} (body : A -> M S unit) :
  (forall x s, exists s', body x s = (Ok tt, s')) ->
  forall xs s, exists s', for_of xs body s = (Ok tt, s').
Proof.
  intros Hbody. induction xs as [|x xs IH]; intros s; cbn.
  - by exists s.
  - unfold bind. destruct (Hbody x s) as [s' ->]. apply IH.
Qed.

Lemma filter_facts_clean (fs : list Facts) :
  Forall (fun fact => fact_type fact <> excluded_fact) fs ->
  filter_facts fs = fs.
Proof.
  unfold filter_facts. induction 1 as [|fact fs Hfact _ IH]; [done|].
  by rewrite filter_cons_True, IH.
Qed.

Lemma filtered_clean (sr : ScanResult) :
  Forall (fun fact => fact_type fact <> excluded_fact) (facts sr) ->
  filtered sr = sr.
Proof.
  intros Hclean. unfold filtered, set_facts.
  rewrite filter_facts_clean by done. by destruct sr.
Qed.

Lemma filtered_is_clean (sr : ScanResult) :
  Forall (fun fact => fact_type fact <> excluded_fact) (facts (filtered sr)).
Proof.
  cbn. apply list.Forall_forall. intros fact Hfact.
  unfold filter_facts in Hfact. by apply list_elem_of_filter in Hfact as [? _].
Qed.

Section MoreSubmissions.

Context (config : Config) {World : Type}
        (makeRequest_TestResult : Payload -> World -> Res TestResult * World)
        (makeRequest_MonitorDependenciesResponse :
           Payload -> World -> Res MonitorDependenciesResponse * World).

Local Abbreviation test_body :=
  (testDependencies_body config World makeRequest_TestResult).
Local Abbreviation monitor_body_run :=
  (monitorDependencies_body config World
                            makeRequest_MonitorDependenciesResponse).

(** X1. Every (path, scan result) pair leaves exactly one outcome: when
    [testDependencies] or [monitorDependencies] returns, the results and
    the errors together are as many as the pairs of the scans object;
    when it throws, the frame holds fewer outcomes than there are
    pairs. *)
Theorem one_outcome_per_pair :
  (forall scans st,
     let run := test_body scans (mkTestFrame [] [], st) in
     match run.1 with
     | Ok (results, errors) =>
         (length results + length errors = length (submissions scans))%nat
     | Throw _ =>
         (length (t_results run.2.1) + length (t_errors run.2.1) <
          length (submissions scans))%nat
     end) /\
  (forall scans options st,
     let run := monitor_body_run scans options (mkMonitorFrame [] [], st) in
     match run.1 with
     | Ok (results, errors) =>
         (length results + length errors = length (submissions scans))%nat
     | Throw _ =>
         (length (m_results run.2.1) + length (m_errors run.2.1) <
          length (submissions scans))%nat
     end).
Proof.
  split.
  - intros scans st run.
    destruct (test_run_shape config makeRequest_TestResult scans st)
      as (_ & _ & Hres & Herr & _ & Hshape).
    fold run in Hres, Herr, Hshape. rewrite Hres, Herr in *.
    destruct (run.1) as [[results errors]|e].
    + destruct Hshape as [Hv Hshape]. injection Hv as -> ->.
      eapply outcomes_completed; [apply test_one_outcome|done].
    + eapply outcomes_aborted; [apply test_one_outcome|done].
  - intros scans options st run.
    destruct (monitor_run_shape config makeRequest_MonitorDependenciesResponse
                                scans options st)
      as (_ & _ & Hres & Herr & _ & Hshape).
    fold run in Hres, Herr, Hshape. rewrite Hres, Herr in *.
    destruct (run.1) as [[results errors]|e].
    + destruct Hshape as [Hv Hshape]. injection Hv as -> ->.
      eapply outcomes_completed; [apply monitor_one_outcome|done].
    + eapply outcomes_aborted; [apply monitor_one_outcome|done].
Qed.

Lemma test_step_returns :
  (forall payload w e w',
     makeRequest_TestResult payload w = (Throw e, w') ->
     client_error e = false) ->
  forall path scanResult s,
    exists s', test_step config World makeRequest_TestResult path scanResult s
               = (Ok tt, s').
Proof.
  intros Hsoft path l [f st].
  unfold test_step, bind, try_catch, global, local, deref, gets,
    request_test, push_test_result, push_test_error, modify, throw; cbn.
  destruct (makeRequest_TestResult _ (world st)) as [[resp|err] w] eqn:Hreq;
    cbn; [by eexists|].
  rewrite (Hsoft _ _ _ _ Hreq). by eexists.
Qed.

Lemma monitor_step_returns options :
  (forall payload w e w',
     makeRequest_MonitorDependenciesResponse payload w = (Throw e, w') ->
     client_error e = false) ->
  forall path scanResult s,
    exists s', monitor_step config World
                 makeRequest_MonitorDependenciesResponse options
                 path scanResult s = (Ok tt, s').
Proof.
  intros Hsoft path l [f st].
  unfold monitor_step, bind, try_catch, global, local, deref, store, gets,
    request_monitor, push_monitor_result, push_monitor_error, modify,
    throw; cbn.
  destruct (makeRequest_MonitorDependenciesResponse _ (world st))
    as [[resp|err] w] eqn:Hreq; cbn; [by eexists|].
  rewrite (Hsoft _ _ _ _ Hreq). by eexists.
Qed.

(** The loop nest returns when the body of the inner loop always does. *)
Lemma nest_returns {L} (prefix : string)
    (step : string -> loc -> M (L * State World) unit) :
  (forall path scanResult s, exists s', step path scanResult s = (Ok tt, s')) ->
  forall (entries : list (string * list loc)) s,
    exists s',
      for_of entries
        (fun entry =>
           (global (spinner (prefix +:+ entry.1)) ;;;
            for_of entry.2 (step entry.1))%js) s = (Ok tt, s').
Proof.
  intros Hstep. apply for_of_returns. intros entry s.
  unfold bind, global, spinner, log, modify; cbn.
  apply for_of_returns. intros l s1. apply Hstep.
Qed.

(** X2. Only a client error makes the submission functions throw: with a
    remote service that never rejects a request with a code in
    [400,500), whatever else it does (server errors, dropped
    connections), [testDependencies] and [monitorDependencies]
    return. *)
Theorem only_client_errors_throw :
  ((forall payload w e w',
      makeRequest_TestResult payload w = (Throw e, w') ->
      client_error e = false) ->
   forall scans st,
     exists results errors,
       (testDependencies config World makeRequest_TestResult scans st).1 =
       Ok (results, errors)) /\
  ((forall payload w e w',
      makeRequest_MonitorDependenciesResponse payload w = (Throw e, w') ->
      client_error e = false) ->
   forall scans options st,
     exists results errors,
       (monitorDependencies config World
          makeRequest_MonitorDependenciesResponse scans options st).1 =
       Ok (results, errors)).
Proof.
  split.
  - intros Hsoft scans st.
    destruct (nest_returns "Testing dependencies in " _
                (test_step_returns Hsoft) (Object_entries scans)
                (mkTestFrame [] [], st)) as [s' Hloop].
    unfold testDependencies, run_frame, testDependencies_body.
    unfold bind at 1. rewrite Hloop. cbn. by eexists _, _.
  - intros Hsoft scans options st.
    destruct (nest_returns "Monitoring dependencies in " _
                (monitor_step_returns options Hsoft) (Object_entries scans)
                (mkMonitorFrame [] [], st)) as [s' Hloop].
    unfold monitorDependencies, run_frame, monitorDependencies_body.
    unfold bind at 1. rewrite Hloop. cbn. by eexists _, _.
Qed.

(** X3. [testDependencies] sends each scan result as the store holds
    it, facts unfiltered, in a POST to [/test-dependencies], and leaves
    the store as it was. *)
Theorem test_requests_unfiltered scans st :
  let run := test_body scans (mkTestFrame [] [], st) in
  let calls := test_calls (events_since st run.2.2) in
  heap run.2.2 = heap st /\
  Forall (fun c =>
            p_body (c_payload c) = ScanResultBody (heap st (c_scanResult c)) /\
            p_method (c_payload c) = "POST" /\
            p_url (c_payload c) = API config +:+ "/test-dependencies") calls.
Proof.
  intros run calls.
  destruct (test_run_shape config makeRequest_TestResult scans st)
    as (_ & Hheap & _ & _ & Hsent & _).
  fold run calls in Hheap, Hsent. split; [done|].
  eapply list.Forall_impl; [exact Hsent|]. intros c Hc. cbn in Hc.
  by rewrite Hc.
Qed.

(** X4. A scan result that has no fact of the type
    [imageOsReleasePrettyName] comes out of a run of
    [monitorDependencies] as it went in, whether a request was made for
    it or not. *)
Theorem monitor_keeps_clean_scan_result scans options st l :
  let run := monitor_body_run scans options (mkMonitorFrame [] [], st) in
  Forall (fun fact => fact_type fact <> "imageOsReleasePrettyName")
         (facts (heap st l)) ->
  heap run.2.2 l = heap st l.
Proof.
  intros run Hclean.
  destruct (monitor_run_shape config makeRequest_MonitorDependenciesResponse
                              scans options st) as (_ & Hheap & _).
  fold run in Hheap. rewrite Hheap. unfold filtered_at.
  destruct (decide _); [by apply filtered_clean|done].
Qed.

(** X5. The filter of [monitorDependencies] is idempotent across runs:
    the scan results a run went through are left as they are by any
    later run, over whatever scans object and options. *)
Theorem monitor_again_keeps_filtered scans options scans' options' st :
  let run := monitor_body_run scans options (mkMonitorFrame [] [], st) in
  let reached := map c_scanResult (monitor_calls (events_since st run.2.2)) in
  let again := monitor_body_run scans' options' (mkMonitorFrame [] [], run.2.2) in
  Forall (fun l => heap again.2.2 l = heap run.2.2 l) reached.
Proof.
  intros run reached again.
  destruct (monitor_run_shape config makeRequest_MonitorDependenciesResponse
                              scans options st) as (_ & Hheap & _).
  destruct (monitor_run_shape config makeRequest_MonitorDependenciesResponse
                              scans' options' run.2.2) as (_ & Hheap' & _).
  fold run reached in Hheap. fold again in Hheap'.
  apply list.Forall_forall. intros l Hl.
  rewrite Hheap'. unfold filtered_at at 1.
  destruct (decide _); [|done].
  apply filtered_clean. rewrite Hheap. unfold filtered_at.
  rewrite decide_True by done. apply filtered_is_clean.
Qed.

End MoreSubmissions.

(** ** The progress indicator, path by path *)

(** The label a turn of the loop nest starts the indicator with. *)
Definition entered (prefix : string) (it : Item) : option string :=
  match it with
  | Enter p => Some (prefix +:+ p)
  | Submit _ _ => None
  end.

Lemma entered_schedule prefix (entries : list (string * list loc)) :
  omap (entered prefix) (schedule entries) =
  map (fun entry => prefix +:+ entry.1) entries.
Proof.
  induction entries as [|[p ls] entries IH]; [done|].
  cbn [schedule fst snd map]. cbn [omap list_omap entered].
  rewrite omap_app, IH. f_equal.
  replace (omap (entered prefix) (map (Submit p) ls)) with (@nil string);
    [done|].
  induction ls as [|l ls IHls]; [done|]. by cbn.
Qed.

Lemma started_app xs ys : started (xs ++ ys) = started xs ++ started ys.
Proof. apply omap_app. Qed.

Lemma cleared_app xs ys : cleared (xs ++ ys) = (cleared xs + cleared ys)%nat.
Proof. unfold cleared. by rewrite omap_app, length_app. Qed.

Lemma cleared_none evs : EvClearAll ∉ evs -> cleared evs = 0%nat.
Proof.
  induction evs as [|ev evs IH]; [done|].
  intros [Hne Hrest]%not_elem_of_cons.
  change (ev :: evs) with ([ev] ++ evs). rewrite cleared_app, IH by done.
  by destruct ev.
Qed.

Section Started.

Context {R : Type}.
Variable call_of : Event -> option (Call R).
Hypothesis call_of_spinner : forall label, call_of (EvSpinner label) = None.
Variable prefix : string.
Variable sent : loc -> Payload -> Prop.

(** The indicator is started by the turns that enter a path, and by no
    other. *)
Lemma turns_started items evs :
  Forall2 (turn call_of prefix sent) items evs ->
  started evs = omap (entered prefix) items.
Proof.
  induction 1 as [|it ev items evs Hturn _ IH]; [done|].
  change (ev :: evs) with ([ev] ++ evs). rewrite started_app, IH.
  destruct it as [p|p l]; cbn in Hturn |- *.
  - by subst ev.
  - destruct Hturn as (c & Hc & _). destruct ev; try done.
    by rewrite call_of_spinner in Hc.
Qed.

Hypothesis call_of_scan :
  forall eco o r, call_of (EvScan eco o r) = None.

(** The turns ask no plugin for a scan. *)
Lemma turns_no_scan items evs :
  Forall2 (turn call_of prefix sent) items evs -> scan_calls evs = [].
Proof.
  induction 1 as [|it ev items evs Hturn _ IH]; [done|].
  change (ev :: evs) with ([ev] ++ evs).
  unfold scan_calls in *. rewrite omap_app, IH.
  destruct it as [p|p l]; cbn in Hturn |- *.
  - by subst ev.
  - destruct Hturn as (c & Hc & _). destruct ev; try done.
    by rewrite call_of_scan in Hc.
Qed.

End Started.

Section Indicator.

Context (config : Config) {World : Type}
        (makeRequest_TestResult : Payload -> World -> Res TestResult * World)
        (makeRequest_MonitorDependenciesResponse :
           Payload -> World -> Res MonitorDependenciesResponse * World).

Local Abbreviation test_body :=
  (testDependencies_body config World makeRequest_TestResult).
Local Abbreviation monitor_body_run :=
  (monitorDependencies_body config World
                            makeRequest_MonitorDependenciesResponse).

(** The turns a run of [testDependencies] took. *)
Lemma test_loop_turns scans st :
  exists run done evs rest,
    test_body scans (mkTestFrame [] [], st) = run /\
    Forall2 (turn test_call_of "Testing dependencies in "
                  (test_sent config (heap st))) done evs /\
    match run.1 with
    | Ok _ =>
        done = schedule (Object_entries scans) /\
        events_since st run.2.2 = evs ++ [EvClearAll]
    | Throw _ =>
        schedule (Object_entries scans) = done ++ rest /\
        exists p l payload r,
          events_since st run.2.2 = evs ++ [EvTest p l payload r]
    end.
Proof.
  assert (Hinit : test_inv config st [] (mkTestFrame [] [], st)).
  { exists []. rewrite app_nil_r. repeat split; constructor. }
  pose proof (for_of_inv _ _ _
                (test_turn_preserves config makeRequest_TestResult st)
                (schedule (Object_entries scans)) [] _ Hinit) as Hloop.
  unfold testDependencies_body. unfold bind at 1.
  rewrite nest_schedule.
  destruct (for_of (schedule _) _ _) as [[[]|e] [f st']].
  - destruct Hloop as (evs & Htr & _ & Hturns & _).
    cbn [fst snd app] in *.
    eexists _, (schedule (Object_entries scans)), evs, [].
    split; [reflexivity|]. split; [done|]. cbn. split; [done|].
    apply events_since_app. cbn. by rewrite Htr, <- app_assoc.
  - destruct Hloop as (pre & x & post & Hsched & Habort).
    destruct Habort as (evs & p & l & err & -> & Htr & _ & Hturns & _).
    cbn [fst snd app] in *.
    eexists _, pre, evs, (Submit p l :: post).
    split; [reflexivity|]. split; [done|]. cbn.
    split; [done|]. eexists p, l, _, _.
    apply events_since_app. by rewrite Htr.
Qed.

(** The turns a run of [monitorDependencies] took. *)
Lemma monitor_loop_turns scans options st :
  exists run done evs rest,
    monitor_body_run scans options (mkMonitorFrame [] [], st) = run /\
    Forall2 (turn monitor_call_of "Monitoring dependencies in "
                  (monitor_sent config options (heap st))) done evs /\
    match run.1 with
    | Ok _ =>
        done = schedule (Object_entries scans) /\
        events_since st run.2.2 = evs ++ [EvClearAll]
    | Throw _ =>
        schedule (Object_entries scans) = done ++ rest /\
        exists p l payload r,
          events_since st run.2.2 = evs ++ [EvMonitor p l payload r]
    end.
Proof.
  assert (Hinit : monitor_inv config options st [] (mkMonitorFrame [] [], st)).
  { exists []. rewrite app_nil_r. by split_and!. }
  pose proof (for_of_inv _ _ _
                (monitor_turn_preserves
                   config makeRequest_MonitorDependenciesResponse options st)
                (schedule (Object_entries scans)) [] _ Hinit) as Hloop.
  unfold monitorDependencies_body. unfold bind at 1.
  rewrite nest_schedule.
  destruct (for_of (schedule _) _ _) as [[[]|e] [f st']].
  - destruct Hloop as (evs & Htr & _ & Hturns & _).
    cbn [fst snd app] in *.
    eexists _, (schedule (Object_entries scans)), evs, [].
    split; [reflexivity|]. split; [done|]. cbn. split; [done|].
    apply events_since_app. cbn. by rewrite Htr, <- app_assoc.
  - destruct Hloop as (pre & x & post & Hsched & Habort).
    destruct Habort as (evs & p & l & err & -> & Htr & _ & Hturns & _).
    cbn [fst snd app] in *.
    eexists _, pre, evs, (Submit p l :: post).
    split; [reflexivity|]. split; [done|]. cbn.
    split; [done|]. eexists p, l, _, _.
    apply events_since_app. by rewrite Htr.
Qed.

Lemma started_prefix prefix (entries : list (string * list loc)) done rest :
  schedule entries = done ++ rest ->
  exists n, omap (entered prefix) done =
            take n (map (fun entry => prefix +:+ entry.1) entries).
Proof.
  intros Hsched. exists (length (omap (entered prefix) done)).
  rewrite <- (entered_schedule prefix entries), Hsched, omap_app.
  by rewrite take_app_length.
Qed.

Lemma test_run_indicator scans st :
  let run := test_body scans (mkTestFrame [] [], st) in
  let evs := events_since st run.2.2 in
  let labels := map (fun entry => "Testing dependencies in " +:+ entry.1)
                    (Object_entries scans) in
  scan_calls evs = [] /\
  match run.1 with
  | Ok _ =>
      started evs = labels /\ cleared evs = 1%nat /\
      list.last evs = Some EvClearAll
  | Throw _ =>
      (exists n, started evs = take n labels) /\ cleared evs = 0%nat
  end.
Proof.
  intros run evs labels. subst evs.
  destruct (test_loop_turns scans st)
    as (run' & done & evs & rest & Heq & Hturns & Hrun).
  fold run in Heq. subst run'.
  pose proof (turns_started test_call_of (fun _ => eq_refl) _ _ _ _ Hturns)
    as Hstarted.
  pose proof (turns_not_cleared test_call_of eq_refl _ _ _ _ Hturns)
    as Hclear.
  pose proof (turns_no_scan test_call_of _ _ (fun _ _ _ => eq_refl) _ _ Hturns)
    as Hscans.
  destruct (run.1) as [v|e].
  - destruct Hrun as [-> ->]. split.
    { unfold scan_calls in *. by rewrite omap_app, Hscans. }
    rewrite started_app, cleared_app, cleared_none, Hstarted by done.
    rewrite entered_schedule, last_snoc. cbn. by rewrite app_nil_r.
  - destruct Hrun as (Hsched & p & l & payload & r & ->). split.
    { unfold scan_calls in *. by rewrite omap_app, Hscans. }
    rewrite started_app, cleared_app, cleared_none, Hstarted by done.
    cbn. rewrite app_nil_r. split; [|done].
    by eapply started_prefix.
Qed.

Lemma monitor_run_indicator scans options st :
  let run := monitor_body_run scans options (mkMonitorFrame [] [], st) in
  let evs := events_since st run.2.2 in
  let labels := map (fun entry => "Monitoring dependencies in " +:+ entry.1)
                    (Object_entries scans) in
  scan_calls evs = [] /\
  match run.1 with
  | Ok _ =>
      started evs = labels /\ cleared evs = 1%nat /\
      list.last evs = Some EvClearAll
  | Throw _ =>
      (exists n, started evs = take n labels) /\ cleared evs = 0%nat
  end.
Proof.
  intros run evs labels. subst evs.
  destruct (monitor_loop_turns scans options st)
    as (run' & done & evs & rest & Heq & Hturns & Hrun).
  fold run in Heq. subst run'.
  pose proof (turns_started monitor_call_of (fun _ => eq_refl) _ _ _ _ Hturns)
    as Hstarted.
  pose proof (turns_not_cleared monitor_call_of eq_refl _ _ _ _ Hturns)
    as Hclear.
  pose proof (turns_no_scan monitor_call_of _ _ (fun _ _ _ => eq_refl)
                            _ _ Hturns) as Hscans.
  destruct (run.1) as [v|e].
  - destruct Hrun as [-> ->]. split.
    { unfold scan_calls in *. by rewrite omap_app, Hscans. }
    rewrite started_app, cleared_app, cleared_none, Hstarted by done.
    rewrite entered_schedule, last_snoc. cbn. by rewrite app_nil_r.
  - destruct Hrun as (Hsched & p & l & payload & r & ->). split.
    { unfold scan_calls in *. by rewrite omap_app, Hscans. }
    rewrite started_app, cleared_app, cleared_none, Hstarted by done.
    cbn. rewrite app_nil_r. split; [|done].
    by eapply started_prefix.
Qed.

(** X6. A run of [testDependencies] or [monitorDependencies] that
    returns has started the progress indicator once for each path of the
    scans object, in the order of [Object.entries] and also for a path
    with no scan result, and has called [clearAll] once, at the end. A
    run that throws has started it for the first paths only and has not
    called [clearAll]. *)
Theorem indicator_once_per_path :
  (forall scans st,
     let run := test_body scans (mkTestFrame [] [], st) in
     let evs := events_since st run.2.2 in
     let labels := map (fun entry => "Testing dependencies in " +:+ entry.1)
                       (Object_entries scans) in
     match run.1 with
     | Ok _ =>
         started evs = labels /\ cleared evs = 1%nat /\
         list.last evs = Some EvClearAll
     | Throw _ =>
         (exists n, started evs = take n labels) /\ cleared evs = 0%nat
     end) /\
  (forall scans options st,
     let run := monitor_body_run scans options (mkMonitorFrame [] [], st) in
     let evs := events_since st run.2.2 in
     let labels := map (fun entry => "Monitoring dependencies in " +:+ entry.1)
                       (Object_entries scans) in
     match run.1 with
     | Ok _ =>
         started evs = labels /\ cleared evs = 1%nat /\
         list.last evs = Some EvClearAll
     | Throw _ =>
         (exists n, started evs = take n labels) /\ cleared evs = 0%nat
     end).
Proof.
  split.
  - intros scans st. apply test_run_indicator.
  - intros scans options st. apply monitor_run_indicator.
Qed.

End Indicator.

(** ** The report *)

Section Report.

Context {Files : Type}
        (getExtraProjectCount :
           string -> Options -> Files -> Res (option nat) * Files)
        (formatMonitorOutput :
           string -> EcosystemMonitorResult -> Options -> string ->
           option nat -> Res string)
        (MonitorError : Z -> EcosystemMonitorError -> ErrorData)
        (bold_red bold_white : string -> string).

Local Abbreviation failure := (failure_entry MonitorError).
Local Abbreviation texts_of :=
  (texts getExtraProjectCount formatMonitorOutput).
Local Abbreviation format :=
  (getFormattedMonitorOutput getExtraProjectCount formatMonitorOutput
                             MonitorError bold_red bold_white).

Lemma successes_ok (datas : list string)
    (monitorResults : list EcosystemMonitorResult) :
  forallb ok (zip_with success_entry datas monitorResults) = true.
Proof.
  revert monitorResults.
  induction datas as [|d ds IH]; intros [|m ms]; cbn; auto.
Qed.

Lemma failures_ok (errors : list EcosystemMonitorError) :
  forallb ok (map failure errors) = true <-> errors = [].
Proof. by destruct errors. Qed.

Lemma format_returns h monitorResults errors options results w :
  (exists outputString,
     (format h monitorResults errors options (results, w)).1 =
     Ok outputString) <->
  (texts_of h options monitorResults w).1.2 = None /\
  forallb ok results = true /\ errors = [].
Proof.
  rewrite getFormattedMonitorOutput_run.
  destruct (texts_of h options monitorResults w) as [[datas [e|]] w'];
    cbn [fst snd].
  - split; [by intros [? ?]|by intros [? _]].
  - rewrite !forallb_app, successes_ok, andb_true_l.
    rewrite <- failures_ok.
    destruct (forallb ok results), (forallb ok (map failure errors)); cbn;
      split; try (by intros [? ?]); try (by intros (_ & ? & ?));
      intros _; try (by eexists); by split_and!.
Qed.

(** X8. The formatter returns exactly when every call of
    [getExtraProjectCount] and [formatMonitorOutput] it makes for the
    monitor results returns, there is no monitor error, and there is no
    failure among the entries the caller collected before; any monitor
    error makes it throw, whatever the monitor results. *)
Theorem getFormattedMonitorOutput_returns_iff
    h monitorResults errors options results w :
  (exists outputString,
     (format h monitorResults errors options (results, w)).1 =
     Ok outputString) <->
  (texts_of h options monitorResults w).1.2 = None /\
  Forall (fun res => ok res = true) results /\ errors = [].
Proof.
  rewrite format_returns, forallb_forall, Forall_forall. done.
Qed.

Context (config : Config) {World : Type}
        (makeRequest_MonitorDependenciesResponse :
           Payload -> World -> Res MonitorDependenciesResponse * World).

(** X9. The monitor orchestration and the formatter together, when
    [monitorDependencies] returns and its results and errors are
    formatted into an empty array. If the formatter's calls for the
    monitor results all return, the array holds one entry for each
    (path, scan result) pair of the scans object, and the formatter
    returns exactly when every request was answered with a response.
    If one of them fails, the formatter throws that failure and the
    array holds fewer entries than there are pairs. *)
Theorem report_of_monitor_run scans options st w :
  let run := monitorDependencies_body config World
               makeRequest_MonitorDependenciesResponse scans options
               (mkMonitorFrame [] [], st) in
  let calls := monitor_calls (events_since st run.2.2) in
  match run.1 with
  | Ok (monitorResults, errors) =>
      let out :=
        format (heap run.2.2) monitorResults errors options ([], w) in
      match (texts_of (heap run.2.2) options monitorResults w).1.2 with
      | None =>
          length out.2.1 = length (submissions scans) /\
          ((exists outputString, out.1 = Ok outputString) <->
           Forall answered calls)
      | Some e =>
          out.1 = Throw e /\
          (length out.2.1 < length (submissions scans))%nat
      end
  | Throw _ => True
  end.
Proof.
  intros run calls.
  destruct (monitor_run_shape config makeRequest_MonitorDependenciesResponse
                              scans options st)
    as (_ & _ & Hres & Herr & _ & Hshape).
  fold run calls in Hres, Herr, Hshape.
  destruct (run.1) as [[monitorResults errors]|e]; [|done].
  destruct Hshape as [Hv Hshape]. injection Hv as -> ->.
  cbv zeta.
  assert (Hcount : (length (omap monitor_result calls) +
                     length (omap monitor_error calls) =
                     length (submissions scans))%nat).
  { eapply outcomes_completed; [apply monitor_one_outcome|done]. }
  pose proof (format_returns (heap run.2.2) (m_results run.2.1)
                (m_errors run.2.1) options [] w) as Hret.
  rewrite getFormattedMonitorOutput_run in Hret |- *.
  destruct (texts_of (heap run.2.2) options (m_results run.2.1) w)
    as [[datas failed] w'] eqn:Htexts.
  pose proof (texts_length _ _ _ _ _ _ _ _ _ Htexts) as Hlen.
  destruct failed as [e|]; cbn [fst snd app] in *.
  - split; [done|]. rewrite length_zip_with. rewrite Hres in Hlen. lia.
  - split.
    + rewrite length_app, length_zip_with, length_map, Hlen.
      rewrite Nat.min_id, Hres, Herr. exact Hcount.
    + rewrite Hret. rewrite Herr.
      destruct Hshape as (_ & Hall & _). split.
      * intros (_ & _ & Hnone).
        eapply outcomes_answered; [apply monitor_one_outcome|done..].
      * intros Hanswered. split_and!; [done..|].
        eapply answered_no_error; [apply monitor_one_outcome|done].
Qed.

End Report.

(** ** From the scan loop to the submissions *)

(** The entry of the map a scan leaves: the path it was asked for and
    the scan results it returned. *)
Definition entry_of (call : Ecosystem * Options * Res PluginResponse)
    : option (string * list loc) :=
  match call.2 with
  | Ok pluginResponse => Some (o_path call.1.2, scanResults pluginResponse)
  | Throw _ => None
  end.

Lemma assign_new {V} k (v : V) (ps : list (string * V)) :
  k ∉ map fst ps -> assign k v ps = ps ++ [(k, v)].
Proof.
  induction ps as [|[k' v'] ps IH]; intros Hout; cbn; [done|].
  cbn in Hout. apply not_elem_of_cons in Hout as [Hne Hout].
  rewrite decide_False by done. f_equal. by apply IH.
Qed.


Section ScanValues.

Context {World : Type}
        (plugin_scan :
           Ecosystem -> Options -> World -> Heap ->
           Res PluginResponse * (World * Heap)).
Variables (ecosystem : Ecosystem) (options : Options).

Local Abbreviation analyzing := "Analyzing dependencies in ".

(** What the scan loop keeps besides [scan_inv]: it sends no request,
    leaves the progress indicator running, and, for distinct paths,
    appends to the map the entry of each scan. *)
Definition scan_values (st0 : State World) (announce : bool)
    (done : list string) (s : ScanFrame * State World) : Prop :=
  exists evs,
    trace s.2 = trace st0 ++ evs /\
    test_calls evs = [] /\ monitor_calls evs = [] /\
    (EvClearAll ∉ evs) /\
    started evs = (if announce then map (String.append analyzing) done else []) /\
    (NoDup done -> "__proto__" ∉ done ->
     own (scanResultsByPath s.1) = omap entry_of (scan_calls evs) /\
     map fst (own (scanResultsByPath s.1)) = done).

Definition scan_quiet (st0 : State World) (s : ScanFrame * State World)
    : Prop :=
  exists evs,
    trace s.2 = trace st0 ++ evs /\
    test_calls evs = [] /\ monitor_calls evs = [] /\ (EvClearAll ∉ evs).

Lemma scan_values_preserved st0 announce done x s :
  scan_values st0 announce done s ->
  match scan_body plugin_scan ecosystem announce x s with
  | (Ok _, s') => scan_values st0 announce (done ++ [x]) s'
  | (Throw e, s') => scan_quiet st0 s'
  end.
Proof.
  intros (evs & Htr & Htest & Hmon & Hclear & Hstarted & Hown).
  destruct s as [f st]; cbn [fst snd] in *.
  set (announced := if announce then [EvSpinner (analyzing +:+ x)] else []).
  assert (Hrun : scan_body plugin_scan ecosystem announce x (f, st) =
                 scan_step World plugin_scan ecosystem x
                   (f, mkState (world st) (heap st) (trace st ++ announced))).
  { subst announced. destruct announce; cbn; [done|].
    rewrite app_nil_r. by destruct st. }
  rewrite Hrun. clear Hrun.
  unfold scan_step, bind, local, global, modify, gets, scan; cbn.
  set (asked := set_path x (f_options f)).
  assert (Hquiet : forall r,
            test_calls (evs ++ announced ++ [EvScan ecosystem asked r]) = [] /\
            monitor_calls (evs ++ announced ++ [EvScan ecosystem asked r]) = [] /\
            EvClearAll ∉ evs ++ announced ++ [EvScan ecosystem asked r]).
  { intros r. unfold test_calls, monitor_calls in *.
    rewrite !omap_app, Htest, Hmon. subst announced.
    split_and!; [by destruct announce|by destruct announce|].
    rewrite !not_elem_of_app. split_and!; [done| |].
    - destruct announce; [|apply not_elem_of_nil].
      apply not_elem_of_cons. split; [done|apply not_elem_of_nil].
    - apply not_elem_of_cons. split; [done|apply not_elem_of_nil]. }
  destruct (plugin_scan ecosystem asked (world st) (heap st))
    as [[resp|err] [w h]]; cbn.
  - exists (evs ++ announced ++ [EvScan ecosystem asked (Ok resp)]).
    destruct (Hquiet (Ok resp)) as (Ht & Hm & Hc).
    split_and!; try done.
    + by rewrite Htr, <- !app_assoc.
    + rewrite !started_app, Hstarted. subst announced.
      destruct announce; cbn; [|done]. by rewrite map_app.
    + intros [Hnd [Hx Hnd']]%list.NoDup_app Hproto.
      apply not_elem_of_app in Hproto as [Hproto Hx'].
      destruct (Hown Hnd Hproto) as [Hentries Hkeys].
      assert (Hnew : x ∉ map fst (own (scanResultsByPath f))).
      { rewrite Hkeys. intros Hin. apply (Hx x Hin), list_elem_of_here. }
      unfold obj_set. rewrite decide_False.
      2:{ intros ->. apply Hx', list_elem_of_here. }
      cbn. rewrite assign_new by done. split.
      * unfold scan_calls in *. rewrite !omap_app, <- Hentries.
        f_equal. subst announced. by destruct announce.
      * by rewrite map_app, Hkeys.
  - exists (evs ++ announced ++ [EvScan ecosystem asked (Throw err)]).
    destruct (Hquiet (Throw err)) as (Ht & Hm & Hc).
    split_and!; try done. by rewrite Htr, <- !app_assoc.
Qed.

(** The scan loop, with both invariants. *)
Lemma scan_loop_run announce paths st :
  exists run,
    for_of paths (scan_body plugin_scan ecosystem announce)
           (mkScanFrame empty_obj options, st) = run /\
    match run.1 with
    | Ok _ =>
        scan_inv ecosystem options st paths run.2 /\
        scan_values st announce paths run.2
    | Throw e =>
        scan_quiet st run.2 /\
        exists pre x post,
          paths = pre ++ x :: post /\
          scan_abort ecosystem options st pre x e run.2
    end.
Proof.
  eexists. split; [reflexivity|].
  assert (Hinit : scan_inv ecosystem options st []
                    (mkScanFrame empty_obj options, st) /\
                  scan_values st announce []
                    (mkScanFrame empty_obj options, st)).
  { split.
    - exists []. rewrite app_nil_r. split_and!; try done; cbn.
      + constructor.
      + intros k. split; [by intros ?%elem_of_nil|by intros [?%elem_of_nil _]].
    - exists []. rewrite app_nil_r.
      split_and!; try done; [apply not_elem_of_nil|by destruct announce]. }
  pose proof (for_of_inv (scan_body plugin_scan ecosystem announce)
                (fun done s => scan_inv ecosystem options st done s /\
                               scan_values st announce done s)
                (fun done x e s => scan_abort ecosystem options st done x e s /\
                                   scan_quiet st s)) as Hloop.
  specialize (Hloop
    (fun done x s '(conj H1 H2) =>
       match scan_body plugin_scan ecosystem announce x s as r
         return match r with
                | (Ok _, s') => scan_inv ecosystem options st (done ++ [x]) s'
                | (Throw e, s') => scan_abort ecosystem options st done x e s'
                end ->
                match r with
                | (Ok _, s') => scan_values st announce (done ++ [x]) s'
                | (Throw e, s') => scan_quiet st s'
                end ->
                match r with
                | (Ok _, s') =>
                    scan_inv ecosystem options st (done ++ [x]) s' /\
                    scan_values st announce (done ++ [x]) s'
                | (Throw e, s') =>
                    scan_abort ecosystem options st done x e s' /\
                    scan_quiet st s'
                end
       with
       | (Ok _, s') => fun A B => conj A B
       | (Throw e, s') => fun A B => conj A B
       end (scan_step_preserves plugin_scan ecosystem options st
                                announce done x s H1)
           (scan_values_preserved st announce done x s H2))
    paths [] _ Hinit).
  cbn [app] in Hloop.
  destruct (for_of paths _ _) as [[[]|e] s']; cbn [fst snd].
  - done.
  - destruct Hloop as (pre & x & post & -> & Habort & Hquiet).
    split; [done|]. by exists pre, x, post.
Qed.

End ScanValues.

(** ** testEcosystem and monitorEcosystem *)

Section Ecosystems.

Context (config : Config) {World : Type}
        (plugin_scan :
           Ecosystem -> Options -> World -> Heap ->
           Res PluginResponse * (World * Heap))
        (plugin_display :
           Ecosystem -> list loc -> list TestResult -> list string ->
           Options -> World -> Heap -> Res string * World)
        (makeRequest_TestResult : Payload -> World -> Res TestResult * World)
        (makeRequest_MonitorDependenciesResponse :
           Payload -> World -> Res MonitorDependenciesResponse * World)
        (JSON_stringify : list TestResult -> string).
Variables (ecosystem : Ecosystem) (options : Options).

Local Abbreviation test_loop paths st :=
  (testEcosystem_scan World plugin_scan ecosystem paths
                      (mkScanFrame empty_obj options, st)).
Local Abbreviation monitor_loop paths st :=
  (monitorEcosystem_scan World plugin_scan ecosystem paths
                         (mkScanFrame empty_obj options, st)).
Local Abbreviation test_all shown :=
  (testEcosystem config World plugin_scan shown makeRequest_TestResult
                 JSON_stringify ecosystem).
Local Abbreviation monitor_all :=
  (monitorEcosystem config World plugin_scan
                    makeRequest_MonitorDependenciesResponse ecosystem).
Local Abbreviation asked path := (ecosystem, set_path path options).

(** [testEcosystem], step by step. *)
Lemma testEcosystem_run shown paths st :
  test_all shown paths options st =
  match test_loop paths st with
  | (Throw e, s) => (Throw e, s.2)
  | (Ok _, s) =>
      match testDependencies config World makeRequest_TestResult
                             (scanResultsByPath s.1) s.2 with
      | (Throw e, s1) => (Throw e, s1)
      | (Ok r, s1) =>
          if truthy (o_json (f_options s.1))
          then (Ok (JsonTestCommandResult (JSON_stringify r.1)), s1)
          else
            match shown ecosystem
                    (concat (Object_values (scanResultsByPath s.1)))
                    r.1 r.2 (f_options s.1) (world s1) (heap s1) with
            | (Ok readableResult, w) =>
                (Ok (HumanReadableTestCommandResult readableResult
                                                    (JSON_stringify r.1)),
                 mkState w (heap s1) (trace s1))
            | (Throw e, w) => (Throw e, mkState w (heap s1) (trace s1))
            end
      end
  end.
Proof.
  unfold testEcosystem, run_frame, bind, gets, global, ret,
    display.
  destruct (testEcosystem_scan _ _ _ _ _) as [[[]|e] [f s]]; cbn; [|done].
  destruct (testDependencies _ _ _ _ _) as [[r|e] s1]; cbn; [|done].
  destruct (truthy (o_json (f_options f))); cbn; [done|].
  by destruct (shown _ _ _ _ _ _ _) as [[readableResult|e] w].
Qed.

(** [monitorEcosystem], step by step. *)
Lemma monitorEcosystem_run paths st :
  monitor_all paths options st =
  match monitor_loop paths st with
  | (Throw e, s) => (Throw e, s.2)
  | (Ok _, s) =>
      monitorDependencies config World makeRequest_MonitorDependenciesResponse
                          (scanResultsByPath s.1) (f_options s.1) s.2
  end.
Proof.
  unfold monitorEcosystem, run_frame, bind, gets, global.
  destruct (monitorEcosystem_scan _ _ _ _ _) as [[[]|e] [f s]]; cbn; [|done].
  by destruct (monitorDependencies _ _ _ _ _ _).
Qed.

(** What a scan loop leaves when a scan fails. *)
Lemma scan_loop_failure announce paths st :
  let loop := for_of paths (scan_body plugin_scan ecosystem announce)
                (mkScanFrame empty_obj options, st) in
  let evs := events_since st loop.2.2 in
  test_calls evs = [] /\ monitor_calls evs = [] /\ cleared evs = 0%nat /\
  forall k call e,
    scan_calls evs !! k = Some call -> call.2 = Throw e ->
    loop.1 = Throw e /\
    length (scan_calls evs) = S k /\
    map fst (scan_calls evs) = map (fun path => asked path) (take (S k) paths).
Proof.
  intros loop evs. subst evs.
  destruct (scan_loop_run plugin_scan ecosystem options announce paths st)
    as (run & Heq & Hrun).
  fold loop in Heq. subst run.
  destruct (loop.1) as [[]|e0].
  - destruct Hrun as [(evs & Htr & Hcalls & _) (evs' & Htr' & Ht & Hm & Hc & _)].
    rewrite Htr in Htr'. apply app_inv_head in Htr'. subst evs'.
    rewrite (events_since_app _ _ _ Htr).
    split_and!; [done|done|by apply cleared_none|].
    intros k call e Hk He.
    destruct (Forall2_lookup_r _ _ _ _ _ Hcalls Hk)
      as (path & _ & _ & [resp Hresp]).
    congruence.
  - destruct Hrun as [(evs' & Htr' & Ht & Hm & Hc)
                        (pre & x & post & -> & evs & calls0 & Htr & Hcalls & Hpre)].
    rewrite Htr in Htr'. apply app_inv_head in Htr'. subst evs'.
    rewrite (events_since_app _ _ _ Htr).
    split_and!; [done|done|by apply cleared_none|].
    intros k call e Hk He. rewrite Hcalls in Hk |- *.
    pose proof (list.Forall2_length _ _ _ Hpre) as Hlen.
    destruct (decide (k < length calls0)%nat) as [Hlt|Hge].
    + rewrite lookup_app_l in Hk by done.
      destruct (Forall2_lookup_r _ _ _ _ _ Hpre Hk)
        as (path & _ & _ & [resp Hresp]).
      congruence.
    + rewrite lookup_app_r in Hk by lia.
      destruct (k - length calls0)%nat as [|n] eqn:Hn; [|done].
      injection Hk as <-. cbn in He. injection He as ->.
      assert (k = length pre) as -> by lia.
      split_and!; [done|rewrite length_app; cbn; lia|].
      rewrite (cons_middle x pre post), app_assoc, take_app_length'
        by (rewrite length_app; cbn; lia).
      rewrite !map_app. cbn.
      by destruct (scanned_calls ecosystem options _ _ Hpre) as [-> _].
Qed.

(** X10. When a scan of the plugin fails, [testEcosystem] and
    [monitorEcosystem] throw the plugin's error as it is: the failed
    scan is the last one asked for, the paths after it are not scanned,
    no request is sent to the remote service and nothing else is
    done. *)
Theorem scan_failure_propagates :
  (forall paths st,
     let loop := test_loop paths st in
     let evs := events_since st loop.2.2 in
     forall k call e,
       scan_calls evs !! k = Some call -> call.2 = Throw e ->
       test_all plugin_display paths options st = (Throw e, loop.2.2) /\
       length (scan_calls evs) = S k /\
       map fst (scan_calls evs) =
         map (fun path => asked path) (take (S k) paths) /\
       test_calls evs = []) /\
  (forall paths st,
     let loop := monitor_loop paths st in
     let evs := events_since st loop.2.2 in
     forall k call e,
       scan_calls evs !! k = Some call -> call.2 = Throw e ->
       monitor_all paths options st = (Throw e, loop.2.2) /\
       length (scan_calls evs) = S k /\
       map fst (scan_calls evs) =
         map (fun path => asked path) (take (S k) paths) /\
       monitor_calls evs = []).
Proof.
  split.
  - intros paths st loop evs k call e Hk He.
    destruct (scan_loop_failure false paths st) as (Ht & _ & _ & Hfail).
    destruct (Hfail k call e Hk He) as (Hthrow & Hlen & Hcalls).
    split_and!; try done.
    rewrite testEcosystem_run.
    change (for_of paths (scan_body plugin_scan ecosystem false) _)
      with loop in Hthrow.
    change (test_loop paths st) with loop.
    clearbody loop. destruct loop as [[[]|e'] s]; cbn in Hthrow.
    + discriminate Hthrow.
    + by injection Hthrow as ->.
  - intros paths st loop evs k call e Hk He.
    destruct (scan_loop_failure true paths st) as (_ & Hm & _ & Hfail).
    destruct (Hfail k call e Hk He) as (Hthrow & Hlen & Hcalls).
    split_and!; try done.
    rewrite monitorEcosystem_run.
    change (for_of paths (scan_body plugin_scan ecosystem true) _)
      with loop in Hthrow.
    change (monitor_loop paths st) with loop.
    clearbody loop. destruct loop as [[[]|e'] s]; cbn in Hthrow.
    + discriminate Hthrow.
    + by injection Hthrow as ->.
Qed.

(** The scan loop leaves [json] as the caller set it. *)
Lemma scan_loop_keeps_json announce paths st :
  let loop := for_of paths (scan_body plugin_scan ecosystem announce)
                (mkScanFrame empty_obj options, st) in
  match loop.1 with
  | Ok _ =>
      o_json (f_options loop.2.1) = o_json options /\
      project_name (f_options loop.2.1) = project_name options
  | Throw _ => True
  end.
Proof.
  intros loop.
  destruct (scan_loop_run plugin_scan ecosystem options announce paths st)
    as (run & Heq & Hrun).
  fold loop in Heq. subst run.
  destruct (loop.1) as [[]|e0]; [|done].
  destruct Hrun as [(evs & _ & _ & Hopts & _) _].
  specialize (Hopts "").
  split; [exact (f_equal o_json Hopts)|exact (f_equal project_name Hopts)].
Qed.




(** X13. [monitorEcosystem] and the progress indicator: a run that
    returns has started it for analyzing each path of the list, then
    for monitoring each key of the map, and has cleared it once, at the
    very end; a run that throws, on a failed scan or on a client error,
    has never cleared it. *)
Theorem monitorEcosystem_indicator paths st :
  let run := monitor_all paths options st in
  let evs := events_since st run.2 in
  let byPath := scanResultsByPath (monitor_loop paths st).2.1 in
  match run.1 with
  | Ok _ =>
      started evs =
        map (String.append "Analyzing dependencies in ") paths ++
        map (String.append "Monitoring dependencies in ") (Object_keys byPath) /\
      cleared evs = 1%nat /\
      list.last evs = Some EvClearAll
  | Throw _ => cleared evs = 0%nat
  end.
Proof.
  intros run evs byPath. subst evs run byPath.
  rewrite monitorEcosystem_run.
  destruct (scan_loop_run plugin_scan ecosystem options true paths st)
    as (loop & Heq & Hloop).
  change (for_of paths (scan_body plugin_scan ecosystem true) _)
    with (monitor_loop paths st) in Heq. rewrite Heq.
  destruct loop as [[[]|e] [f s]]; cbn [fst snd] in *.
  - destruct Hloop as [_ (evs1 & Htr1 & _ & _ & Hc1 & Hstarted1 & _)].
    cbn [fst snd] in *.
    rewrite monitorDependencies_of_body.
    set (monitored := monitorDependencies_body config World
                        makeRequest_MonitorDependenciesResponse
                        (scanResultsByPath f) (f_options f)
                        (mkMonitorFrame [] [], s)).
    destruct (monitor_run_shape config
                makeRequest_MonitorDependenciesResponse
                (scanResultsByPath f) (f_options f) s) as (Htr2 & _).
    destruct (monitor_run_indicator config
                makeRequest_MonitorDependenciesResponse
                (scanResultsByPath f) (f_options f) s) as [_ Hind].
    fold monitored in Htr2, Hind.
    set (evs2 := events_since s monitored.2.2) in *. cbn [fst snd].
    rewrite (events_since_app st monitored.2.2 (evs1 ++ evs2))
      by (by rewrite Htr2, Htr1, <- app_assoc).
    rewrite started_app, cleared_app, (cleared_none evs1), Hstarted1 by done.
    destruct (monitored.1) as [v|e].
    + destruct Hind as (-> & -> & Hlast). split_and!; [|done|].
      * unfold Object_keys. by rewrite map_map.
      * rewrite last_app. by rewrite Hlast.
    + by destruct Hind as [_ ->].
  - destruct Hloop as [(evs1 & Htr1 & _ & _ & Hc1) _]. cbn [fst snd] in *.
    rewrite (events_since_app _ _ _ Htr1). by apply cleared_none.
Qed.

End Ecosystems.

(** ** Further cases on scripted worlds *)

Module Cases.

(** A remote service out of reach: every request fails like a dropped
    connection. *)
Definition offline_test (_ : Payload) (w : unit) : Res TestResult * unit :=
  (Throw Script.dropped, w).

Definition offline_monitor (_ : Payload) (w : unit)
    : Res MonitorDependenciesResponse * unit :=
  (Throw Script.dropped, w).

Definition offline : State unit := mkState tt Script.store [].

(** The scans object [{ './c': [#2] }]. *)
Definition clean_path : JsObject (list loc) := mkObj [("./c", [2%nat])].

(** A store whose scan result [#2] has two facts, neither of them the
    OS release, and a state with it. *)
Definition clean_store : Heap :=
  <[2%nat := Script.image [Script.dep_graph; Script.image_id]]> Script.store.

Definition clean_start : State Script.World :=
  mkState Script.monitor_unavailable clean_store [].


Definition JSON_stringify (testResults : list TestResult) : string :=
  match testResults with
  | [] => "[]"
  | _ :: _ => "[...]"
  end.

Definition display_text (_ : Ecosystem) (_ : list loc) (_ : list TestResult)
    (_ : list string) (_ : Options) (w : Script.World) (_ : Heap)
    : Res string * Script.World :=
  (Ok "Tested 2 projects", w).


(** A display that lists the fact types of the scan results it is
    given, and the path of its options. *)
Definition display_listing (_ : Ecosystem) (scans : list loc)
    (_ : list TestResult) (_ : list string) (opts : Options)
    (w : Script.World) (h : Heap) : Res string * Script.World :=
  (Ok (join "; " (map (fun l => join "," (map fact_type (facts (h l)))) scans)
       +:+ " at " +:+ o_path opts), w).

(** Both scans yield one scan result and both test requests are
    answered. *)
Definition all_fine : Script.World :=
  Script.mkWorld
    [Ok (mkPluginResponse [0%nat]); Ok (mkPluginResponse [1%nat])]
    [Ok Script.clean; Ok Script.clean] [].

(** The second scan fails. *)
Definition scan_fails : Script.World :=
  Script.mkWorld
    [Ok (mkPluginResponse [0%nat]); Throw (new_Error "image not found");
     Ok (mkPluginResponse [1%nat])]
    [Ok Script.clean] [].

Definition failed_scan : Ecosystem * Options * Res PluginResponse :=
  (docker, set_path "./b" Script.options, Throw (new_Error "image not found")).

End Cases.

Section MoreScripted.

Import Script Cases.

(** X2 at the service out of reach: both requests fail without a code
    and [testDependencies] returns. *)
Lemma only_client_errors_throw_witness :
  (forall payload w e w',
     offline_test payload w = (Throw e, w') -> client_error e = false) /\
  exists results errors,
    (testDependencies config unit offline_test two_paths offline).1 =
    Ok (results, errors).
Proof.
  assert (H1 : forall payload w e w',
             offline_test payload w = (Throw e, w') ->
             client_error e = false).
  { intros payload w e w' Heq. by injection Heq as <- _. }
  split; [exact H1|].
  pose proof (only_client_errors_throw config offline_test offline_monitor)
    as [Htest _].
  exact (Htest H1 two_paths offline).
Defined.

(** X4 at [clean_path] over [clean_store]: the scan result is sent
    with its two facts and comes out as it was. *)
Lemma monitor_keeps_clean_scan_result_witness :
  facts (heap clean_start 2%nat) = [dep_graph; image_id] /\
  Forall (fun fact => fact_type fact <> "imageOsReleasePrettyName")
         (facts (heap clean_start 2%nat)) /\
  map c_scanResult
      (monitor_calls
         (trace (monitorDependencies_body config World
                   makeRequest_MonitorDependenciesResponse clean_path options
                   (mkMonitorFrame [] [], clean_start)).2.2)) = [2%nat] /\
  heap (monitorDependencies_body config World
          makeRequest_MonitorDependenciesResponse clean_path options
          (mkMonitorFrame [] [], clean_start)).2.2 2%nat =
  image [dep_graph; image_id].
Proof.
  assert (H1 : Forall (fun fact => fact_type fact <> "imageOsReleasePrettyName")
                      (facts (heap clean_start 2%nat))).
  { apply list.Forall_cons. split; [discriminate|].
    apply list.Forall_cons. split; [discriminate|]. constructor. }
  split; [reflexivity|]. split; [exact H1|]. split; [reflexivity|].
  pose proof (monitor_keeps_clean_scan_result config
                makeRequest_MonitorDependenciesResponse clean_path options
                clean_start 2%nat H1) as Hkept.
  exact Hkept.
Defined.

(** X10 at [scan_fails]: the second of three scans fails, the third
    path is not scanned and [testEcosystem] throws the plugin's
    error. *)
Lemma scan_failure_propagates_witness :
  scan_calls (events_since (start scan_fails)
                (test_scan ["./a"; "./b"; "./c"] scan_fails).2.2)
    !! 1%nat = Some failed_scan /\
  (testEcosystem config World plugin_scan display_text makeRequest_TestResult
                 JSON_stringify docker ["./a"; "./b"; "./c"] options
                 (start scan_fails)).1 = Throw (new_Error "image not found") /\
  length (scan_calls (events_since (start scan_fails)
                        (test_scan ["./a"; "./b"; "./c"] scan_fails).2.2))
    = 2%nat.
Proof.
  assert (H1 : scan_calls (events_since (start scan_fails)
                             (test_scan ["./a"; "./b"; "./c"] scan_fails).2.2)
                 !! 1%nat = Some failed_scan) by reflexivity.
  pose proof (scan_failure_propagates config plugin_scan display_text
                makeRequest_TestResult
                makeRequest_MonitorDependenciesResponse JSON_stringify
                docker options) as [Htest _].
  destruct (Htest ["./a"; "./b"; "./c"] (start scan_fails) 1%nat failed_scan
                  (new_Error "image not found") H1 eq_refl)
    as (Hthrow & Hlen & _).
  split; [exact H1|]. split; [exact (f_equal fst Hthrow)|exact Hlen].
Defined.



End MoreScripted.

(** ** The options object *)

Section OptionsObject.

Context (config : Config) {World : Type}
        (plugin_scan :
           Ecosystem -> Options -> World -> Heap ->
           Res PluginResponse * (World * Heap))
        (makeRequest_MonitorDependenciesResponse :
           Payload -> World -> Res MonitorDependenciesResponse * World).
Variables (ecosystem : Ecosystem) (options : Options).

(** The options object after the paths [done]. *)
Definition options_after (done : list string) : Options :=
  from_option (fun path => set_path path options) options (list.last done).

Lemma options_path_step announce done x s :
  f_options s.1 = options_after done ->
  match scan_body plugin_scan ecosystem announce x s with
  | (Ok _, s') => f_options s'.1 = options_after (done ++ [x])
  | (Throw e, s') => f_options s'.1 = set_path x options
  end.
Proof.
  intros Hopts. destruct s as [f st]; cbn [fst snd] in *.
  assert (Hset : set_path x (f_options f) = set_path x options).
  { rewrite Hopts. unfold options_after. by destruct (list.last done). }
  unfold options_after. rewrite last_snoc. cbn.
  destruct announce;
    unfold scan_body, scan_step, bind, local, global, modify, gets, scan,
      spinner, log; cbn;
    by destruct (plugin_scan ecosystem _ _ _) as [[resp|err] [w h]].
Qed.

Lemma options_path_loop announce paths st :
  let loop := for_of paths (scan_body plugin_scan ecosystem announce)
                (mkScanFrame empty_obj options, st) in
  match loop.1 with
  | Ok _ => f_options loop.2.1 = options_after paths
  | Throw _ =>
      exists path, path ∈ paths /\ f_options loop.2.1 = set_path path options
  end.
Proof.
  pose proof (for_of_inv (scan_body plugin_scan ecosystem announce)
                (fun done s => f_options s.1 = options_after done)
                (fun done x e s => f_options s.1 = set_path x options)
                (options_path_step announce)
                paths [] (mkScanFrame empty_obj options, st) eq_refl) as Hloop.
  cbv zeta. destruct (for_of paths _ _) as [[[]|e] s]; cbn [fst snd app] in *.
  - done.
  - destruct Hloop as (pre & x & post & -> & Hopts).
    exists x. split; [|done]. apply elem_of_app. right. apply list_elem_of_here.
Qed.

(** X14. The scan loops write to the caller's options object and to
    its [path] only: after a loop that returns, [options.path] is the
    last path of the list (the options are untouched for an empty list)
    and every other option is as the caller set it; after a failed scan
    it is the path of that scan. *)
Theorem scan_loop_sets_path paths st :
  (let loop := testEcosystem_scan World plugin_scan ecosystem paths
                 (mkScanFrame empty_obj options, st) in
   match loop.1 with
   | Ok _ =>
       f_options loop.2.1 =
       match list.last paths with
       | Some path => set_path path options
       | None => options
       end
   | Throw _ =>
       exists path, path ∈ paths /\ f_options loop.2.1 = set_path path options
   end) /\
  (let loop := monitorEcosystem_scan World plugin_scan ecosystem paths
                 (mkScanFrame empty_obj options, st) in
   match loop.1 with
   | Ok _ =>
       f_options loop.2.1 =
       match list.last paths with
       | Some path => set_path path options
       | None => options
       end
   | Throw _ =>
       exists path, path ∈ paths /\ f_options loop.2.1 = set_path path options
   end).
Proof.
  split.
  - exact (options_path_loop false paths st).
  - exact (options_path_loop true paths st).
Qed.

(** X15. The monitor requests of [monitorEcosystem] are built from the
    caller's options, whatever the scan loop wrote to [options.path]:
    each carries the method tag [cli], the project name resolved from
    the caller's ['project-name'] and the configured name, and a scan
    result with no fact of the type [imageOsReleasePrettyName]. *)
Theorem monitorEcosystem_requests paths st :
  let run := monitorEcosystem config World plugin_scan
               makeRequest_MonitorDependenciesResponse ecosystem paths
               options st in
  Forall (fun c =>
            exists sent,
              p_body (c_payload c) =
                MonitorBody sent
                  (js_or (js_or (project_name options) (PROJECT_NAME config))
                         None)
                  None (Some "cli") /\
              Forall (fun fact => fact_type fact <> "imageOsReleasePrettyName")
                     (facts sent))
         (monitor_calls (events_since st run.2)).
Proof.
  intros run. subst run. rewrite monitorEcosystem_run.
  destruct (scan_loop_run plugin_scan ecosystem options true paths st)
    as (loop & Heq & Hloop).
  pose proof (scan_loop_keeps_json plugin_scan ecosystem options true paths st)
    as Hkeep.
  cbv zeta in Hkeep. rewrite Heq in Hkeep.
  change (for_of paths (scan_body plugin_scan ecosystem true) _)
    with (monitorEcosystem_scan World plugin_scan ecosystem paths
            (mkScanFrame empty_obj options, st)) in Heq.
  rewrite Heq.
  destruct loop as [[[]|e] [f s]]; cbn [fst snd] in *.
  - destruct Hloop as [_ (evs1 & Htr1 & _ & Hm1 & _)]. cbn [fst snd] in *.
    destruct Hkeep as [_ Hname].
    rewrite monitorDependencies_of_body.
    set (monitored := monitorDependencies_body config World
                        makeRequest_MonitorDependenciesResponse
                        (scanResultsByPath f) (f_options f)
                        (mkMonitorFrame [] [], s)).
    destruct (monitor_run_shape config
                makeRequest_MonitorDependenciesResponse
                (scanResultsByPath f) (f_options f) s)
      as (Htr2 & _ & _ & _ & Hsent & _).
    fold monitored in Htr2, Hsent.
    set (evs2 := events_since s monitored.2.2) in *. cbn [fst snd].
    rewrite (events_since_app st monitored.2.2 (evs1 ++ evs2))
      by (by rewrite Htr2, Htr1, <- app_assoc).
    unfold monitor_calls in *. rewrite omap_app, Hm1. cbn [app].
    eapply list.Forall_impl; [exact Hsent|]. intros c Hc.
    unfold monitor_sent in Hc. rewrite Hc.
    unfold monitor_payload, monitor_body, generateMonitorDependenciesRequest.
    cbn [p_body q_projectName q_policy q_method]. rewrite Hname.
    eexists. split; [done|]. apply filtered_is_clean.
  - destruct Hloop as [(evs1 & Htr1 & _ & Hm1 & _) _]. cbn [fst snd] in *.
    rewrite (events_since_app _ _ _ Htr1). unfold monitor_calls in *.
    rewrite Hm1. constructor.
Qed.

End OptionsObject.

(** ** The scan results displayed *)

Lemma concat_values (entries : list (string * list loc)) :
  concat (map snd entries) = map snd (pairs_of entries).
Proof.
  induction entries as [|[p ls] entries IH]; [done|].
  cbn [map concat pairs_of fst snd]. rewrite map_app, IH. f_equal.
  rewrite map_map. cbn. by rewrite map_id.
Qed.

Section Displayed.

Context (config : Config) {World : Type}
        (plugin_scan :
           Ecosystem -> Options -> World -> Heap ->
           Res PluginResponse * (World * Heap))
        (plugin_display :
           Ecosystem -> list loc -> list TestResult -> list string ->
           Options -> World -> Heap -> Res string * World)
        (makeRequest_TestResult : Payload -> World -> Res TestResult * World)
        (JSON_stringify : list TestResult -> string).
Variables (ecosystem : Ecosystem) (options : Options).

(** X7. Without the [json] option, a result [testEcosystem] returns
    holds the text of one call of the plugin's display. That call was
    given the scan results for which test requests were made in the
    run, in the order of the requests, the responses and the error
    texts of those requests, and the options object as the scan loop
    left it; it was made on the store the run ends with, and the world
    it left is the one the run ends with. *)
Theorem displayed_are_submitted paths st result :
  let run := testEcosystem config World plugin_scan plugin_display
               makeRequest_TestResult JSON_stringify ecosystem paths
               options st in
  let calls := test_calls (events_since st run.2) in
  truthy (o_json options) = false ->
  run.1 = Ok result ->
  exists readableResult w,
    plugin_display ecosystem (map c_scanResult calls)
                   (omap response calls) (omap test_error calls)
                   (options_after options paths) w (heap run.2) =
    (Ok readableResult, world run.2) /\
    result = HumanReadableTestCommandResult
               readableResult (JSON_stringify (omap response calls)).
Proof.
  intros run calls Hjson. subst calls run.
  rewrite testEcosystem_run.
  destruct (scan_loop_run plugin_scan ecosystem options false paths st)
    as (loop & Heq & Hloop).
  pose proof (scan_loop_keeps_json plugin_scan ecosystem options false paths st)
    as Hkeep.
  pose proof (options_path_loop plugin_scan ecosystem options false paths st)
    as Hopts.
  cbv zeta in Hkeep, Hopts. rewrite Heq in Hkeep, Hopts.
  change (for_of paths (scan_body plugin_scan ecosystem false) _)
    with (testEcosystem_scan World plugin_scan ecosystem paths
            (mkScanFrame empty_obj options, st)) in Heq.
  rewrite Heq.
  destruct loop as [[[]|e] [f s]]; cbn [fst snd] in *; [|done].
  destruct Hloop as [_ (evs1 & Htr1 & Ht1 & _)]. cbn [fst snd] in *.
  destruct Hkeep as [Hkeep _].
  rewrite testDependencies_of_body.
  set (tested := testDependencies_body config World makeRequest_TestResult
                   (scanResultsByPath f) (mkTestFrame [] [], s)).
  destruct (test_run_shape config makeRequest_TestResult
              (scanResultsByPath f) s)
    as (Htr2 & _ & Hres & Herr & _ & Hshape).
  fold tested in Htr2, Hres, Herr, Hshape.
  set (evs2 := events_since s tested.2.2) in *. cbn [fst snd].
  destruct (tested.1) as [r|e]; [|done].
  destruct Hshape as [-> (Htargets & _)]. cbn [fst snd].
  rewrite Hkeep, Hjson.
  assert (Hcalls : forall s', trace s' = trace tested.2.2 ->
            test_calls (events_since st s') = test_calls evs2).
  { intros s' Hs'.
    rewrite (events_since_app st s' (evs1 ++ evs2))
      by (by rewrite Hs', Htr2, Htr1, <- app_assoc).
    unfold test_calls in *. by rewrite omap_app, Ht1. }
  assert (Hscans : concat (Object_values (scanResultsByPath f)) =
                   map c_scanResult (test_calls evs2)).
  { unfold Object_values. rewrite concat_values.
    change (pairs_of (Object_entries (scanResultsByPath f)))
      with (submissions (scanResultsByPath f)).
    rewrite <- Htargets, map_map. done. }
  destruct (plugin_display _ _ _ _ _ _ _) as [[readableResult|e] w] eqn:Hshown;
    cbn [fst snd]; [|done].
  intros [= <-]. exists readableResult, (world tested.2.2).
  rewrite (Hcalls (mkState w (heap tested.2.2) (trace tested.2.2)) eq_refl).
  cbn [heap world].
  rewrite <- Hscans, <- Hres, <- Herr, <- Hopts. by split.
Qed.

End Displayed.

Section DisplayedScripted.

Import Script Cases.

(** X7 at [all_fine]: both scan results are tested and the display
    lists them, unfiltered and in the order of the requests, with the
    path of the last scan. *)
Lemma displayed_are_submitted_witness :
  truthy (o_json options) = false /\
  (testEcosystem config World plugin_scan display_listing
                 makeRequest_TestResult JSON_stringify docker
                 ["./a"; "./b"] options (start all_fine)).1 =
  Ok (HumanReadableTestCommandResult
        ("imageOsReleasePrettyName,depGraph; " +:+
         "depGraph,imageOsReleasePrettyName,imageId at ./b")
        "[...]") /\
  exists readableResult w,
    display_listing docker
      (map c_scanResult
         (test_calls
            (events_since (start all_fine)
               (testEcosystem config World plugin_scan display_listing
                  makeRequest_TestResult JSON_stringify docker
                  ["./a"; "./b"] options (start all_fine)).2)))
      (omap response
         (test_calls
            (events_since (start all_fine)
               (testEcosystem config World plugin_scan display_listing
                  makeRequest_TestResult JSON_stringify docker
                  ["./a"; "./b"] options (start all_fine)).2)))
      (omap test_error
         (test_calls
            (events_since (start all_fine)
               (testEcosystem config World plugin_scan display_listing
                  makeRequest_TestResult JSON_stringify docker
                  ["./a"; "./b"] options (start all_fine)).2)))
      (options_after options ["./a"; "./b"]) w
      (heap (testEcosystem config World plugin_scan display_listing
               makeRequest_TestResult JSON_stringify docker
               ["./a"; "./b"] options (start all_fine)).2) =
    (Ok readableResult,
     world (testEcosystem config World plugin_scan display_listing
              makeRequest_TestResult JSON_stringify docker
              ["./a"; "./b"] options (start all_fine)).2) /\
    HumanReadableTestCommandResult
      ("imageOsReleasePrettyName,depGraph; " +:+
       "depGraph,imageOsReleasePrettyName,imageId at ./b")
      "[...]" =
    HumanReadableTestCommandResult
      readableResult
      (JSON_stringify
         (omap response
            (test_calls
               (events_since (start all_fine)
                  (testEcosystem config World plugin_scan display_listing
                     makeRequest_TestResult JSON_stringify docker
                     ["./a"; "./b"] options (start all_fine)).2)))).
Proof.
  assert (H1 : truthy (o_json options) = false) by reflexivity.
  assert (H2 : (testEcosystem config World plugin_scan display_listing
                  makeRequest_TestResult JSON_stringify docker
                  ["./a"; "./b"] options (start all_fine)).1 =
               Ok (HumanReadableTestCommandResult
                     ("imageOsReleasePrettyName,depGraph; " +:+
                      "depGraph,imageOsReleasePrettyName,imageId at ./b")
                     "[...]")) by reflexivity.
  split; [exact H1|]. split; [exact H2|].
  pose proof (displayed_are_submitted config plugin_scan display_listing
                makeRequest_TestResult JSON_stringify docker options
                ["./a"; "./b"] (start all_fine) _ H1 H2) as H.
  exact H.
Defined.

End DisplayedScripted.
